(** * External task workers: IBM RPA authorisation and Oracle/Tasy update

    A shallow embedding of [workers/worker_ibm_rpa_autorizacao.py] and
    [workers/worker_oracle_autorizacao.py].

    - [Py] models the fragment of the Python runtime the two workers rely
      on: JSON-like values, truthiness, [dict.get], [int()], [str()],
      [str.upper], [str.strip] and the exception classes that matter for
      the [except] clauses.
    - [IbmRpa] models [IBMRPAClient.aguardar_conclusao] (the polling loop,
      over an explicit clock and a script of HTTP replies) and
      [handle_executar_rpa].
    - [OracleAutorizacao] models [obter_estagio_por_status],
      [OracleAutorizacaoRepository] (over a scripted database driver) and
      [handle_atualizar_autorizacao].

    Strings are byte strings; case mapping and white space are those of
    ASCII.  Wall-clock time is counted in milliseconds. *)

From Stdlib Require Import ZArith List String Ascii Bool Lia.
From Stdlib Require Import Floats.SpecFloat.
From Stdlib Require Import DecimalString.
Import ListNotations.

Set Warnings "-register-all".
Local Open Scope string_scope.
Local Open Scope Z_scope.

(* ===================================================================== *)
(** * The Python fragment *)
(* ===================================================================== *)
Module Py.

(** Exception classes.  [KeyboardInterrupt] stands for the classes that
    derive from [BaseException] only, which [except Exception] lets
    through. *)
Inductive excecao : Type :=
| ValueError
| TypeError
| OverflowError
| AttributeError
| RequestException
| DatabaseError
| KeyboardInterrupt.

Definition eh_Exception (e : excecao) : bool :=
  match e with
  | KeyboardInterrupt => false
  | _ => true
  end.

Definition eh_RequestException (e : excecao) : bool :=
  match e with
  | RequestException => true
  | _ => false
  end.

(** A computation that returns or raises. *)
Inductive resultado (A : Type) : Type :=
| Ret (a : A)
| Levanta (e : excecao).
Arguments Ret {A} a.
Arguments Levanta {A} e.

Definition liga {A B} (m : resultado A) (k : A -> resultado B) : resultado B :=
  match m with
  | Ret a => k a
  | Levanta e => Levanta e
  end.

Notation "x <- m ;; k" := (liga m (fun x => k))
  (at level 61, m at next level, right associativity).
Notation "' pat <- m ;; k" := (liga m (fun x => match x with pat => k end))
  (at level 61, pat pattern, m at next level, right associativity).

(** Values as [json] decoding and the broker client deliver them.  Floats
    are IEEE binary floats in the representation of [SpecFloat]; a dict is
    the list of its items. *)
Inductive pyval : Type :=
| PNone
| PBool (b : bool)
| PInt (z : Z)
| PFloat (f : spec_float)
| PStr (s : string)
| PList (l : list pyval)
| PDict (d : list (string * pyval)).

Definition dict := list (string * pyval).

(** [bool(v)] *)
Definition truthy (v : pyval) : bool :=
  match v with
  | PNone => false
  | PBool b => b
  | PInt z => negb (z =? 0)
  | PFloat (S754_zero _) => false
  | PFloat _ => true
  | PStr s => negb (s =? "")%string
  | PList l => match l with [] => false | _ => true end
  | PDict d => match d with [] => false | _ => true end
  end.

(** [a or b] *)
Definition ou (a b : pyval) : pyval := if truthy a then a else b.

(** [v is None] *)
Definition eh_None (v : pyval) : bool :=
  match v with PNone => true | _ => false end.

(** [d.get(k)] on the items of a dict. *)
Fixpoint dict_get (d : dict) (k : string) : option pyval :=
  match d with
  | [] => None
  | (k', v) :: r => if (k' =? k)%string then Some v else dict_get r k
  end.

(** [v.get(k, padrao)]: only a dict has the method. *)
Definition metodo_get (v : pyval) (k : string) (padrao : pyval) : resultado pyval :=
  match v with
  | PDict d => Ret (match dict_get d k with Some x => x | None => padrao end)
  | _ => Levanta AttributeError
  end.

(** [x in (s1, ..., sn)] for a tuple of string literals. *)
Definition em_tupla (x : pyval) (t : list string) : bool :=
  match x with
  | PStr s => existsb (String.eqb s) t
  | _ => false
  end.

(** ** [str.upper] and [str.strip] *)

(** The two methods on ASCII text.  [str.upper] maps the letters [a] to
    [z] and keeps every other character; Python also maps letters outside
    ASCII (the dotless i becomes [I]), and [str.strip] also removes the
    white space above 127 (U+0085, U+00A0 and the like): text with such
    characters is outside this model. *)
Definition maiuscula (c : ascii) : ascii :=
  let n := nat_of_ascii c in
  if (andb (97 <=? n) (n <=? 122))%nat then ascii_of_nat (n - 32) else c.

Fixpoint upper (s : string) : string :=
  match s with
  | EmptyString => EmptyString
  | String c r => String (maiuscula c) (upper r)
  end.

(** White space of [str.isspace] below 128: TAB, LF, VT, FF, CR, FS, GS,
    RS, US and the space. *)
Definition eh_espaco (c : ascii) : bool :=
  let n := nat_of_ascii c in
  (orb (andb (9 <=? n) (n <=? 13)) (orb (andb (28 <=? n) (n <=? 31)) (n =? 32)))%nat.

Fixpoint lstrip (s : string) : string :=
  match s with
  | EmptyString => EmptyString
  | String c r => if eh_espaco c then lstrip r else s
  end.

Fixpoint rstrip (s : string) : string :=
  match s with
  | EmptyString => EmptyString
  | String c r =>
      match rstrip r with
      | EmptyString => if eh_espaco c then EmptyString else String c EmptyString
      | r' => String c r'
      end
  end.

Definition strip (s : string) : string := rstrip (lstrip s).

(** ** [int()] *)

Definition eh_digito (c : ascii) : bool :=
  let n := nat_of_ascii c in (andb (48 <=? n) (n <=? 57))%nat.

Definition valor_digito (c : ascii) : Z := Z.of_nat (nat_of_ascii c - 48).

(** Digits with single underscores between them; [antes] tells whether the
    previous character was a digit. *)
Fixpoint le_digitos (s : string) (acc : Z) (antes : bool) : option Z :=
  match s with
  | EmptyString => if antes then Some acc else None
  | String c r =>
      if eh_digito c then le_digitos r (10 * acc + valor_digito c) true
      else if andb (c =? "_")%char antes then le_digitos r acc false
      else None
  end.

(** [int(s)] for a string: optional white space, optional sign, digits.
    The digits are the ASCII ones; the digits of other scripts, which
    [int] accepts too, and CPython's limit on the number of digits are not
    modelled. *)
Definition int_de_str (s : string) : resultado Z :=
  let corpo := strip s in
  let '(neg, resto) :=
    match corpo with
    | String "-" r => (true, r)
    | String "+" r => (false, r)
    | _ => (false, corpo)
    end in
  match le_digitos resto 0 false with
  | Some n => Ret (if neg then - n else n)
  | None => Levanta ValueError
  end.

(** [int(f)] truncates towards zero; it raises on infinities and NaN. *)
Definition int_de_float (f : spec_float) : resultado Z :=
  match f with
  | S754_zero _ => Ret 0
  | S754_infinity _ => Levanta OverflowError
  | S754_nan => Levanta ValueError
  | S754_finite s m e =>
      let mag := if 0 <=? e then Z.pos m * 2 ^ e else Z.pos m / 2 ^ (- e) in
      Ret (if s then - mag else mag)
  end.

Definition py_int (v : pyval) : resultado Z :=
  match v with
  | PNone => Levanta TypeError
  | PBool b => Ret (if b then 1 else 0)
  | PInt z => Ret z
  | PFloat f => int_de_float f
  | PStr s => int_de_str s
  | PList _ => Levanta TypeError
  | PDict _ => Levanta TypeError
  end.

(** ** [str()] and formatted text *)

(** Text built by the program.  What [repr] prints for a float or a
    container, what [str(e)] prints for an exception and what
    [datetime.isoformat] prints for an instant are kept symbolic. *)
Inductive texto : Type :=
| TLit (s : string)
| TRepr (v : pyval)
| TMsg (e : excecao)
| TIso (t : Z)
| TCat (a b : texto).

Definition decimal (z : Z) : string := NilZero.string_of_int (Z.to_int z).

(** [str(v)] *)
Definition py_str (v : pyval) : texto :=
  match v with
  | PNone => TLit "None"
  | PBool true => TLit "True"
  | PBool false => TLit "False"
  | PInt z => TLit (decimal z)
  | PStr s => TLit s
  | _ => TRepr v
  end.

(** [bool(t)] for a text: the symbolic pieces are never empty. *)
Fixpoint texto_truthy (t : texto) : bool :=
  match t with
  | TLit s => negb (s =? "")%string
  | TCat a b => orb (texto_truthy a) (texto_truthy b)
  | _ => true
  end.

End Py.

(* ===================================================================== *)
(** * The broker client: tasks and task results *)
(* ===================================================================== *)
Module Camunda.
Import Py.

(** The part of an [ExternalTask] the handlers read. *)
Record ExternalTask : Type := {
  task_id : string;
  get_variables : dict
}.

(** A value of a result variable: [None], a value taken over from a
    payload, or a text the handler built. *)
Inductive saida : Type :=
| SNone
| SVal (v : pyval)
| STexto (t : texto).

(** [TaskResult.success(task, variables)] and
    [TaskResult.failure(task, error_message, error_details, retries,
    retry_timeout)]. *)
Inductive TaskResult : Type :=
| Success (variaveis : list (string * saida))
| Failure (error_message : texto) (error_details : string) (retries retry_timeout : Z).

Fixpoint variavel (vars : list (string * saida)) (k : string) : option saida :=
  match vars with
  | [] => None
  | (k', v) :: r => if (k' =? k)%string then Some v else variavel r k
  end.

End Camunda.

(* ===================================================================== *)
(** * workers/worker_ibm_rpa_autorizacao.py *)
(* ===================================================================== *)
Module IbmRpa.
Import Py Camunda.

(** The fields of [IBMRPAConfig] the control flow reads; the others only
    shape the HTTP requests. *)
Record IBMRPAConfig : Type := {
  process_id : string;
  timeout_seconds : Z;
  poll_interval_seconds : Z
}.

Inductive RPAStatus : Type := SUCESSO | ERRO | TIMEOUT | PENDENTE.

Definition valor (s : RPAStatus) : string :=
  match s with
  | SUCESSO => "SUCESSO"
  | ERRO => "ERRO"
  | TIMEOUT => "TIMEOUT"
  | PENDENTE => "PENDENTE"
  end.

(** The remote side: what the [k]-th call of [consultar_status_instancia]
    gives (the decoded JSON body, or the exception it raises) and how many
    milliseconds that iteration spends outside [time.sleep]; what the
    POST of [iniciar_processo] gives for a payload. *)
Record remoto : Type := {
  resp_consulta : nat -> resultado pyval;
  dur_consulta : nat -> Z;
  resp_inicio : dict -> resultado pyval
}.

(** What the poller does to the outside, in order. *)
Inductive evento : Type :=
| EvConsulta (k : nat) (t : Z)        (* status query number k, issued at clock t *)
| EvSleep (segundos : Z)              (* time.sleep *)
| EvAvisoTimeout                      (* logger.warning: timeout *)
| EvAvisoDesconhecido (status : string) (* logger.warning: unknown status *)
| EvErroConsulta.                     (* logger.error: query failed *)

Record estado : Type := {
  agora : Z;              (* the clock, in milliseconds *)
  consultas : nat;        (* status queries issued so far *)
  traco : list evento
}.

Definition registra (st : estado) (e : evento) : estado :=
  {| agora := agora st; consultas := consultas st; traco := traco st ++ [e] |}.

(** The [(status, mensagem, output)] tuple of [aguardar_conclusao]. *)
Definition desfecho : Type := RPAStatus * texto * pyval.

Inductive passo : Type :=
| Termina (r : resultado desfecho) (st : estado)
| Continua (st : estado).

(** [time.sleep(s)]: a negative argument raises [ValueError]. *)
Definition dormir (s : Z) (st : estado) : passo :=
  if s <? 0 then Termina (Levanta ValueError) st
  else Continua {| agora := agora st + 1000 * s;
                   consultas := consultas st;
                   traco := traco st ++ [EvSleep s] |}.

(** [v.upper()]: only a string has the method. *)
Definition metodo_upper (v : pyval) : resultado string :=
  match v with
  | PStr s => Ret (upper s)
  | _ => Levanta AttributeError
  end.

(** The branch the [if]/[elif] chain takes on the upper-cased status:
    return a final status, or sleep and go round again. *)
Inductive ramo : Type :=
| Retorna (s : RPAStatus)
| Aguarda
| AguardaDesconhecido.

Definition classificar (status : string) : ramo :=
  if existsb (String.eqb status) ["DONE"; "COMPLETED"] then Retorna SUCESSO
  else if existsb (String.eqb status) ["FAILED"; "CANCELED"; "ERROR"] then Retorna ERRO
  else if existsb (String.eqb status) ["NEW"; "QUEUED"; "PROCESSING"; "RUNNING"; "PENDING"]
       then Aguarda
  else AguardaDesconhecido.

(** The mapper applied to a raw status string. *)
Definition mapear (bruto : string) : ramo := classificar (upper bruto).

Definition get_ou (d : dict) (k : string) (padrao : pyval) : pyval :=
  match dict_get d k with Some x => x | None => padrao end.

(** One turn of the [while True] loop, [t0] being [tempo_inicio].  The
    clock is read in whole milliseconds and the elapsed time is the exact
    difference of two readings; the rounding of the float subtraction
    [time.time() - tempo_inicio], which at an elapsed time equal to the
    budget can let one more turn through, is not modelled. *)
Definition iteracao (c : IBMRPAConfig) (w : remoto) (t0 : Z) (st : estado) : passo :=
  let tempo_decorrido := agora st - t0 in
  if 1000 * timeout_seconds c <=? tempo_decorrido then
    Termina (Ret (TIMEOUT,
                  TLit ("Timeout após " ++ decimal (timeout_seconds c) ++ "s"),
                  PNone))
            (registra st EvAvisoTimeout)
  else
    let k := consultas st in
    let st1 := {| agora := agora st + dur_consulta w k;
                  consultas := S k;
                  traco := traco st ++ [EvConsulta k (agora st)] |} in
    match resp_consulta w k with
    | Levanta e =>
        if eh_RequestException e
        then dormir (poll_interval_seconds c) (registra st1 EvErroConsulta)
        else Termina (Levanta e) st1
    | Ret data =>
        match (s <- metodo_get data "status" (PStr "") ;; metodo_upper s) with
        | Levanta e => Termina (Levanta e) st1
        | Ret status =>
            match classificar status with
            | Retorna SUCESSO =>
                let d := match data with PDict d => d | _ => [] end in
                let outputs := ou (get_ou d "outputs" (PDict [])) (get_ou d "output" (PDict [])) in
                let variables := get_ou d "variables" (PList []) in
                Termina (Ret (SUCESSO,
                              TLit "Processo concluído com sucesso",
                              PDict [("outputs", outputs); ("variables", variables)]))
                        st1
            | Retorna _ =>
                let d := match data with PDict d => d | _ => [] end in
                let error_msg :=
                  ou (get_ou d "errorMessage" PNone)
                     (ou (get_ou d "error" PNone) (PStr "Erro desconhecido")) in
                Termina (Ret (ERRO, TCat (TLit "Processo falhou: ") (py_str error_msg), data))
                        st1
            | Aguarda => dormir (poll_interval_seconds c) st1
            | AguardaDesconhecido =>
                dormir (poll_interval_seconds c) (registra st1 (EvAvisoDesconhecido status))
            end
        end
    end.

(** The loop, cut off after [fuel] turns. *)
Fixpoint aguardar_laco (c : IBMRPAConfig) (w : remoto) (t0 : Z) (fuel : nat) (st : estado)
  : option (resultado desfecho * estado) :=
  match fuel with
  | O => None
  | S f =>
      match iteracao c w t0 st with
      | Termina r st' => Some (r, st')
      | Continua st' => aguardar_laco c w t0 f st'
      end
  end.

(** [aguardar_conclusao], entered when the clock reads [t0]. *)
Definition aguardar_conclusao (c : IBMRPAConfig) (w : remoto) (fuel : nat) (t0 : Z)
  : option (resultado desfecho * estado) :=
  aguardar_laco c w t0 fuel {| agora := t0; consultas := 0; traco := [] |}.

(** ** [handle_executar_rpa] *)

(** [int(x) if x else 0] *)
Definition int_ou_zero (x : pyval) : resultado Z :=
  if truthy x then py_int x else Ret 0.

(** The [rpa_payload] dict literal; its items are evaluated in order. *)
Definition montar_payload (variables : dict) : resultado dict :=
  let paciente_nome := get_ou variables "paciente_nome" (PStr "") in
  let convenio_codigo := get_ou variables "convenio_codigo" PNone in
  let procedimento_codigo := get_ou variables "procedimento_codigo" PNone in
  let medico_crm := get_ou variables "medico_crm" PNone in
  let guia_solicitacao := get_ou variables "guia_solicitacao" PNone in
  c <- int_ou_zero convenio_codigo ;;
  p <- int_ou_zero procedimento_codigo ;;
  m <- int_ou_zero medico_crm ;;
  g <- int_ou_zero guia_solicitacao ;;
  Ret [("paciente_nome", ou paciente_nome (PStr ""));
       ("convenio_codigo", PInt c);
       ("procedimento_codigo", PInt p);
       ("medico_crm", PInt m);
       ("guia_solicitacao", PInt g)].

(** [IBMRPAClient.iniciar_processo]: the POST, then [data.get('id')]; a
    [RequestException] is logged and raised again. *)
Definition iniciar_processo (w : remoto) (payload : dict) : resultado pyval :=
  data <- resp_inicio w payload ;;
  metodo_get data "id" PNone.

(** The aliases of each result field, in the order the source tries them. *)
Definition aliases_status : list string :=
  ["status_autorizacao"; "statusAutorizacao"].
Definition aliases_guia : list string :=
  ["nr_guia_requisicao"; "nrGuiaRequisicao"; "guia_requisicao"].
Definition aliases_numero : list string :=
  ["numero_autorizacao"; "numeroAutorizacao"; "nr_autorizacao"].

Record campos : Type := {
  numero_autorizacao : pyval;
  status_autorizacao : pyval;
  nr_guia_requisicao : option texto
}.

(** [x.get(a) or y], the right operand evaluated only when needed. *)
Definition get_or (x : pyval) (a : string) (resto : resultado pyval) : resultado pyval :=
  v <- metodo_get x a PNone ;;
  if truthy v then Ret v else resto.

(** [str(int(v))] for a float, [str(v)] otherwise. *)
Definition texto_guia (v : pyval) : resultado texto :=
  match v with
  | PFloat f => z <- int_de_float f ;; Ret (TLit (decimal z))
  | _ => Ret (py_str v)
  end.

Definition guia_truthy (g : option texto) : bool :=
  match g with
  | None => false
  | Some t => texto_truthy t
  end.

(** The reads from the [outputs] dict. *)
Definition extrair_outputs (outputs : pyval) : resultado campos :=
  status <- get_or outputs "status_autorizacao"
              (metodo_get outputs "statusAutorizacao" PNone) ;;
  nr_guia_raw <- get_or outputs "nr_guia_requisicao"
                   (get_or outputs "nrGuiaRequisicao"
                      (metodo_get outputs "guia_requisicao" PNone)) ;;
  guia <- (if eh_None nr_guia_raw then Ret None
           else (t <- texto_guia nr_guia_raw ;; Ret (Some t))) ;;
  numero <- get_or outputs "numero_autorizacao"
              (get_or outputs "numeroAutorizacao"
                 (metodo_get outputs "nr_autorizacao" PNone)) ;;
  Ret {| numero_autorizacao := numero;
         status_autorizacao := status;
         nr_guia_requisicao := guia |}.

(** The body of [for var in variables]. *)
Definition passo_variavel (c : campos) (var : pyval) : resultado campos :=
  var_name <- metodo_get var "name" (PStr "") ;;
  var_value <- metodo_get var "value" PNone ;;
  if andb (em_tupla var_name aliases_numero) (negb (truthy (numero_autorizacao c))) then
    Ret {| numero_autorizacao := var_value;
           status_autorizacao := status_autorizacao c;
           nr_guia_requisicao := nr_guia_requisicao c |}
  else if andb (em_tupla var_name aliases_status) (negb (truthy (status_autorizacao c))) then
    Ret {| numero_autorizacao := numero_autorizacao c;
           status_autorizacao := var_value;
           nr_guia_requisicao := nr_guia_requisicao c |}
  else if andb (em_tupla var_name aliases_guia) (negb (guia_truthy (nr_guia_requisicao c))) then
    match var_value with
    | PFloat f =>
        z <- int_de_float f ;;
        Ret {| numero_autorizacao := numero_autorizacao c;
               status_autorizacao := status_autorizacao c;
               nr_guia_requisicao := Some (TLit (decimal z)) |}
    | PNone => Ret c
    | v =>
        Ret {| numero_autorizacao := numero_autorizacao c;
               status_autorizacao := status_autorizacao c;
               nr_guia_requisicao := Some (py_str v) |}
    end
  else Ret c.

Fixpoint percorrer_variaveis (c : campos) (vars : list pyval) : resultado campos :=
  match vars with
  | [] => Ret c
  | var :: r => c' <- passo_variavel c var ;; percorrer_variaveis c' r
  end.

Definition campos_vazios : campos :=
  {| numero_autorizacao := PNone; status_autorizacao := PNone; nr_guia_requisicao := None |}.

(** Step 3 of the handler: the result fields read from [rpa_output]. *)
Definition extrair (rpa_output : pyval) : resultado campos :=
  match rpa_output with
  | PDict (_ :: _) =>
      outputs <- metodo_get rpa_output "outputs" (PDict []) ;;
      variables <- metodo_get rpa_output "variables" (PList []) ;;
      c <- extrair_outputs outputs ;;
      match variables with
      | PList vars => percorrer_variaveis c vars
      | _ => Ret c
      end
  | _ => Ret campos_vazios
  end.

Definition saida_de (v : pyval) : saida :=
  match v with PNone => SNone | _ => SVal v end.

Definition saida_texto (g : option texto) : saida :=
  match g with None => SNone | Some t => STexto t end.

(** The dict of the [TaskResult.success] that ends the [try] block. *)
Definition variaveis_sucesso (rpa_status : RPAStatus) (instance_id : pyval)
    (rpa_mensagem : texto) (quando : Z) (c : campos) : list (string * saida) :=
  [("rpa_status", STexto (TLit (valor rpa_status)));
   ("rpa_instance_id", saida_de instance_id);
   ("rpa_mensagem", STexto rpa_mensagem);
   ("rpa_data_execucao", STexto (TIso quando));
   ("numero_autorizacao", saida_de (numero_autorizacao c));
   ("status_autorizacao", saida_de (status_autorizacao c));
   ("nr_guia_requisicao", saida_texto (nr_guia_requisicao c))].

(** The dict of the [TaskResult.success] of the [except Exception] clause. *)
Definition variaveis_erro_tecnico (e : excecao) (quando : Z) : list (string * saida) :=
  [("rpa_status", STexto (TLit (valor ERRO)));
   ("rpa_instance_id", SNone);
   ("rpa_mensagem", STexto (TCat (TLit "Erro técnico: ") (TMsg e)));
   ("rpa_data_execucao", STexto (TIso quando));
   ("numero_autorizacao", SNone);
   ("status_autorizacao", SNone);
   ("nr_guia_requisicao", SNone)].

Definition estado_inicial (t0 : Z) : estado :=
  {| agora := t0; consultas := 0; traco := [] |}.

(** The [try] block: start the process, wait for it, extract, report. *)
Definition bloco_try (c : IBMRPAConfig) (w : remoto) (fuel : nat) (t0 : Z)
    (rpa_payload : dict) : option (resultado TaskResult * estado) :=
  match iniciar_processo w rpa_payload with
  | Levanta e => Some (Levanta e, estado_inicial t0)
  | Ret instance_id =>
      match aguardar_conclusao c w fuel t0 with
      | None => None
      | Some (Levanta e, st) => Some (Levanta e, st)
      | Some (Ret (rpa_status, rpa_mensagem, rpa_output), st) =>
          match extrair rpa_output with
          | Levanta e => Some (Levanta e, st)
          | Ret cs =>
              Some (Ret (Success (variaveis_sucesso rpa_status instance_id
                                    rpa_mensagem (agora st) cs)), st)
          end
      end
  end.

(** [handle_executar_rpa]; [t0] is the clock when polling starts. *)
Definition handle_executar_rpa (c : IBMRPAConfig) (w : remoto) (fuel : nat) (t0 : Z)
    (task : ExternalTask) : option (resultado TaskResult * estado) :=
  let variables := get_variables task in
  if (process_id c =? "")%string then
    Some (Ret (Failure (TLit "Processo IBM RPA não configurado")
                 "A variável IBM_RPA_PROCESS_ID não está definida no .env"
                 0 5000),
          estado_inicial t0)
  else
    match montar_payload variables with
    | Levanta e => Some (Levanta e, estado_inicial t0)
    | Ret rpa_payload =>
        match bloco_try c w fuel t0 rpa_payload with
        | None => None
        | Some (Levanta e, st) =>
            if eh_Exception e
            then Some (Ret (Success (variaveis_erro_tecnico e (agora st))), st)
            else Some (Levanta e, st)
        | Some (Ret r, st) => Some (Ret r, st)
        end
    end.

End IbmRpa.

(* ===================================================================== *)
(** * workers/worker_oracle_autorizacao.py *)
(* ===================================================================== *)
Module OracleAutorizacao.
Import Py Camunda.

Definition STATUS_PARA_ESTAGIO : list (string * Z) :=
  [("Autorizado", 2);
   ("AUTORIZADO", 2);
   ("Aprovado", 2);
   ("APROVADO", 2);
   ("Analise", 6);
   ("ANALISE", 6);
   ("Auditoria", 29);
   ("AUDITORIA", 29);
   ("Negado", 7);
   ("NEGADO", 7);
   ("Recusado", 7);
   ("RECUSADO", 7)].

(** [tabela.get(k, padrao)] *)
Fixpoint tabela_get (t : list (string * Z)) (k : string) (padrao : Z) : Z :=
  match t with
  | [] => padrao
  | (k', v) :: r => if (k' =? k)%string then v else tabela_get r k padrao
  end.

(** [obter_estagio_por_status]; a truthy value that is not a string has
    no [strip]. *)
Definition obter_estagio_por_status (status_autorizacao : pyval) : resultado Z :=
  if negb (truthy status_autorizacao) then Ret 6
  else
    match status_autorizacao with
    | PStr s => Ret (tabela_get STATUS_PARA_ESTAGIO (strip s) 6)
    | _ => Levanta AttributeError
    end.

(** ** The database driver *)

(** The calls the repository makes on [oracledb]. *)
Inductive chamada : Type :=
| Connect
| Cursor
| ExecuteGuia (nr_sequencia : Z) (guia : texto)
| ExecuteEstagio (nr_sequencia : Z) (nr_seq_estagio : Z)
| Commit
| Rollback
| Close.

(** The driver's side: whether a call, made after [n] earlier ones,
    raises. *)
Definition driver : Type := chamada -> nat -> option excecao.

(** The repository object together with the server's view: the
    [_connection] field (a handle or [None]), the handles that are open,
    and the calls made so far with whether each returned. *)
Record repositorio : Type := {
  _connection : option nat;
  abertas : list nat;
  historico : list (chamada * bool)
}.

(** A method: it reads and updates the repository, and returns or raises. *)
Definition M (A : Type) : Type := repositorio -> resultado A * repositorio.

Definition ret {A} (a : A) : M A := fun s => (Ret a, s).
Definition levanta {A} (e : excecao) : M A := fun s => (Levanta e, s).

Definition bind {A B} (m : M A) (k : A -> M B) : M B :=
  fun s =>
    match m s with
    | (Ret a, s') => k a s'
    | (Levanta e, s') => (Levanta e, s')
    end.

Notation "x <~ m ;; k" := (bind m (fun x => k))
  (at level 61, m at next level, right associativity).
Notation "' pat <~ m ;; k" := (bind m (fun x => match x with pat => k end))
  (at level 61, pat pattern, m at next level, right associativity).
Notation "m ;;; k" := (bind m (fun _ => k))
  (at level 61, right associativity).

(** [try: m  except Exception as e: h e] *)
Definition tenta {A} (m : M A) (h : excecao -> M A) : M A :=
  fun s =>
    match m s with
    | (Levanta e, s') => if eh_Exception e then h e s' else (Levanta e, s')
    | r => r
    end.

(** [try: m  finally: f]: [f] runs whatever [m] did; if [f] raises, that
    exception is the one that leaves. *)
Definition finalmente {A} (m : M A) (f : M unit) : M A :=
  fun s =>
    match m s with
    | (r, s') =>
        match f s' with
        | (Ret _, s'') => (r, s'')
        | (Levanta e, s'') => (Levanta e, s'')
        end
    end.

Definition lift {A} (r : resultado A) : M A := fun s => (r, s).

Section ComDriver.
Variable drv : driver.

(** A driver call other than [connect] and [close]. *)
Definition chama (c : chamada) : M unit :=
  fun s =>
    match drv c (List.length (historico s)) with
    | Some e =>
        (Levanta e,
         {| _connection := _connection s; abertas := abertas s;
            historico := historico s ++ [(c, false)] |})
    | None =>
        (Ret tt,
         {| _connection := _connection s; abertas := abertas s;
            historico := historico s ++ [(c, true)] |})
    end.

(** [oracledb.connect]: the new handle is numbered by the call. *)
Definition conecta : M nat :=
  fun s =>
    let h := List.length (historico s) in
    match drv Connect h with
    | Some e =>
        (Levanta e,
         {| _connection := _connection s; abertas := abertas s;
            historico := historico s ++ [(Connect, false)] |})
    | None =>
        (Ret h,
         {| _connection := _connection s; abertas := h :: abertas s;
            historico := historico s ++ [(Connect, true)] |})
    end.

(** [connection.close()] on the handle [h]. *)
Definition fecha (h : nat) : M unit :=
  fun s =>
    match drv Close (List.length (historico s)) with
    | Some e =>
        (Levanta e,
         {| _connection := _connection s; abertas := abertas s;
            historico := historico s ++ [(Close, false)] |})
    | None =>
        (Ret tt,
         {| _connection := _connection s;
            abertas := filter (fun x => negb (Nat.eqb x h)) (abertas s);
            historico := historico s ++ [(Close, true)] |})
    end.

Definition set_connection (c : option nat) : M unit :=
  fun s => (Ret tt, {| _connection := c; abertas := abertas s; historico := historico s |}).

Definition le_connection : M (option nat) := fun s => (Ret (_connection s), s).

(** [OracleAutorizacaoRepository._get_connection] *)
Definition _get_connection : M nat :=
  c <~ le_connection ;;
  match c with
  | None => h <~ conecta ;; set_connection (Some h) ;;; ret h
  | Some h => ret h
  end.

(** [if self._connection: self._connection.rollback()] *)
Definition rollback_se_conectado : M unit :=
  c <~ le_connection ;;
  match c with
  | Some _ => chama Rollback
  | None => ret tt
  end.

(** [atualizar_autorizacao_guia]: the status and the message of the dict
    it returns. *)
Definition atualizar_autorizacao_guia (nr_sequencia : Z) (nr_guia_requisicao : texto)
  : M (string * texto) :=
  tenta
    (_ <~ _get_connection ;;
     chama Cursor ;;;
     chama (ExecuteGuia nr_sequencia nr_guia_requisicao) ;;;
     chama Commit ;;;
     ret ("SUCESSO", TLit "Dados da guia atualizados com sucesso"))
    (fun e =>
       rollback_se_conectado ;;;
       ret ("ERRO", TMsg e)).

(** [atualizar_estagio_autorizacao]: status, message and [nr_seq_estagio]
    of the dict it returns. *)
Definition atualizar_estagio_autorizacao (nr_sequencia : Z) (status_autorizacao : pyval)
  : M (string * texto * option Z) :=
  tenta
    (_ <~ _get_connection ;;
     chama Cursor ;;;
     nr_seq_estagio <~ lift (obter_estagio_por_status status_autorizacao) ;;
     chama (ExecuteEstagio nr_sequencia nr_seq_estagio) ;;;
     chama Commit ;;;
     ret ("SUCESSO",
          TCat (TLit "Estágio atualizado para ") (TLit (decimal nr_seq_estagio)),
          Some nr_seq_estagio))
    (fun e =>
       rollback_se_conectado ;;;
       ret ("ERRO", TMsg e, None)).

(** [OracleAutorizacaoRepository.close] *)
Definition close : M unit :=
  c <~ le_connection ;;
  match c with
  | Some h => fecha h ;;; set_connection None
  | None => ret tt
  end.

(** [' | '.join(mensagens)] *)
Fixpoint junta (mensagens : list texto) : texto :=
  match mensagens with
  | [] => TLit ""
  | [m] => m
  | m :: r => TCat m (TCat (TLit " | ") (junta r))
  end.

Definition saida_estagio (n : option Z) : saida :=
  match n with
  | Some z => SVal (PInt z)
  | None => SNone
  end.

(** The body of the handler's [try]. *)
Definition corpo_try (nr_sequencia : Z) (nr_guia_requisicao status_autorizacao : pyval)
  : M TaskResult :=
  '(status1, mensagens1) <~
     (if truthy nr_guia_requisicao then
        '(st, msg) <~ atualizar_autorizacao_guia nr_sequencia (py_str nr_guia_requisicao) ;;
        if (st =? "ERRO")%string
        then ret ("ERRO", [TCat (TLit "Guia: ") msg])
        else ret ("SUCESSO", [TLit "Guia atualizada"])
      else ret ("SUCESSO", [TLit "Guia não informada (ignorado)"])) ;;
  '(status2, mensagens2, estagio) <~
     (if truthy status_autorizacao then
        '(st, msg, n) <~ atualizar_estagio_autorizacao nr_sequencia status_autorizacao ;;
        if (st =? "ERRO")%string
        then ret ("ERRO", (mensagens1 ++ [TCat (TLit "Estágio: ") msg])%list, None)
        else ret (status1,
                  (mensagens1 ++ [TCat (TLit "Estágio: ")
                                    (match n with
                                     | Some z => TLit (decimal z)
                                     | None => TLit "None"
                                     end)])%list,
                  n)
      else ret (status1, (mensagens1 ++ [TLit "Status não informado (ignorado)"])%list, None)) ;;
  ret (Success [("oracle_status", STexto (TLit status2));
                ("oracle_mensagem", STexto (junta mensagens2));
                ("nr_seq_estagio", saida_estagio estagio)]).

(** The [try]/[except]/[finally] that follows the construction of the
    repository. *)
Definition com_repositorio (nr_sequencia : Z) (nr_guia_requisicao status_autorizacao : pyval)
  : M TaskResult :=
  finalmente
    (tenta
       (corpo_try nr_sequencia nr_guia_requisicao status_autorizacao)
       (fun e =>
          ret (Success [("oracle_status", STexto (TLit "ERRO"));
                        ("oracle_mensagem", STexto (TMsg e));
                        ("nr_seq_estagio", SNone)])))
    close.

(** [OracleAutorizacaoRepository(OracleConfig())] *)
Definition repositorio_novo : repositorio :=
  {| _connection := None; abertas := []; historico := [] |}.

(** [handle_atualizar_autorizacao] *)
Definition handle_atualizar_autorizacao (task : ExternalTask)
  : resultado TaskResult * repositorio :=
  let variables := get_variables task in
  let nr_sequencia := match dict_get variables "nr_sequencia" with Some v => v | None => PNone end in
  let nr_guia_requisicao :=
    match dict_get variables "nr_guia_requisicao" with Some v => v | None => PNone end in
  let status_autorizacao :=
    match dict_get variables "status_autorizacao" with Some v => v | None => PNone end in
  if negb (truthy nr_sequencia) then
    (Ret (Failure (TLit "nr_sequencia é obrigatório")
            "O parâmetro nr_sequencia deve ser informado ao iniciar o processo"
            0 5000),
     repositorio_novo)
  else
    match py_int nr_sequencia with
    | Levanta ValueError | Levanta TypeError =>
        (Ret (Failure (TCat (TLit "nr_sequencia inválido: ") (py_str nr_sequencia))
                "O parâmetro nr_sequencia deve ser um número inteiro"
                0 5000),
         repositorio_novo)
    | Levanta e => (Levanta e, repositorio_novo)
    | Ret n => com_repositorio n nr_guia_requisicao status_autorizacao repositorio_novo
    end.

End ComDriver.

End OracleAutorizacao.

(* ===================================================================== *)
(** * workers/worker_ibm_rpa_autorizacao.py: the HTTP client *)
(* ===================================================================== *)
Module IbmRpaHttp.
Import Py.

(** The requests [IBMRPAClient] sends, with the token of the
    [Authorization] header for the two that carry one. *)
Inductive requisicao : Type :=
| PostToken
| PostInstance (process_id : string) (payload : dict) (token : pyval)
| GetInstance (process_id : string) (instance_id : pyval) (token : pyval).

(** The server's side: what [raise_for_status] and [json] give for a
    request sent after [n] earlier ones, the decoded body or the
    exception raised. *)
Definition servidor : Type := requisicao -> nat -> resultado pyval.

(** The client object, with the requests sent so far. *)
Record cliente : Type := {
  _access_token : pyval;
  enviadas : list requisicao
}.

(** [IBMRPAClient(config)] *)
Definition cliente_novo : cliente := {| _access_token := PNone; enviadas := [] |}.

Definition C (A : Type) : Type := cliente -> resultado A * cliente.

Definition retc {A} (a : A) : C A := fun s => (Ret a, s).

Definition bindc {A B} (m : C A) (k : A -> C B) : C B :=
  fun s =>
    match m s with
    | (Ret a, s') => k a s'
    | (Levanta e, s') => (Levanta e, s')
    end.

Definition liftc {A} (r : resultado A) : C A := fun s => (r, s).

Section ComServidor.
Variable srv : servidor.

(** [requests.post]/[requests.get], [raise_for_status] and [json]. *)
Definition envia (q : requisicao) : C pyval :=
  fun s =>
    (srv q (List.length (enviadas s)),
     {| _access_token := _access_token s; enviadas := (enviadas s ++ [q])%list |}).

Definition guarda_token (t : pyval) : C unit :=
  fun s => (Ret tt, {| _access_token := t; enviadas := enviadas s |}).

(** [IBMRPAClient._obter_token] *)
Definition _obter_token : C pyval :=
  fun s =>
    if truthy (_access_token s) then (Ret (_access_token s), s)
    else
      bindc (envia PostToken) (fun data =>
      bindc (liftc (metodo_get data "access_token" PNone)) (fun t =>
      bindc (guarda_token t) (fun _ =>
      retc t))) s.

(** [IBMRPAClient._get_headers]: the token of the [Authorization]
    header; the other headers are constants. *)
Definition _get_headers : C pyval := _obter_token.

(** The text of the [Authorization] header for a token. *)
Definition autorizacao (token : pyval) : texto := TCat (TLit "Bearer ") (py_str token).

(** [IBMRPAClient.iniciar_processo]; a [RequestException] is logged and
    raised again. *)
Definition iniciar_processo (process_id : string) (payload : dict) : C pyval :=
  bindc _get_headers (fun token =>
  bindc (envia (PostInstance process_id payload token)) (fun data =>
  liftc (metodo_get data "id" PNone))).

(** [IBMRPAClient.consultar_status_instancia] *)
Definition consultar_status_instancia (process_id : string) (instance_id : pyval)
  : C pyval :=
  bindc _get_headers (fun token =>
  envia (GetInstance process_id instance_id token)).

End ComServidor.

End IbmRpaHttp.

(* ===================================================================== *)
(** * scripts/run_workers.py *)
(* ===================================================================== *)
Module RunWorkers.
Import Py.

Definition WORKERS : list (string * string) :=
  [("onboarding", "worker_onboarding_screening.py");
   ("whatsapp", "worker_whatsapp_comunicacao.py");
   ("ml", "worker_ml_estratificacao.py");
   ("classificacao", "worker_ia_classificacao.py");
   ("autorizacao", "worker_autorizacao_inteligente.py");
   ("navegacao", "worker_navegacao_cuidado.py");
   ("followup", "worker_followup_nps.py");
   ("api-paciente", "worker_api_consulta_paciente.py");
   ("oracle-autorizacao", "worker_oracle_autorizacao.py");
   ("oracle-consulta", "worker_oracle_consulta_paciente.py");
   ("oracle-notificacao", "worker_oracle_notificacao.py");
   ("ibm-rpa", "worker_ibm_rpa_autorizacao.py")].

(** [WORKERS[k]] when [k in WORKERS]. *)
Fixpoint procura (t : list (string * string)) (k : string) : option string :=
  match t with
  | [] => None
  | (k', v) :: r => if (k' =? k)%string then Some v else procura r k
  end.

(** A path [WORKERS_DIR / arquivo]. *)
Inductive caminho : Type := EmWorkers (arquivo : string).

(** [get_worker_path] *)
Definition get_worker_path (worker_name : string) : caminho :=
  match procura WORKERS worker_name with
  | Some f => EmWorkers f
  | None => EmWorkers worker_name
  end.

(** A started process: the path it runs. *)
Inductive processo : Type := Popen (script : caminho).

Section ComArquivos.
(** [Path.exists] *)
Variable existe : caminho -> bool.

(** [run_worker]: [None] when the file does not exist. *)
Definition run_worker (worker_path : caminho) : option processo :=
  if negb (existe worker_path) then None else Some (Popen worker_path).

(** The loop of [run_all_workers] over the items of the table. *)
Fixpoint percorre_tabela (t : list (string * string)) (processes : list (string * processo))
  : list (string * processo) :=
  match t with
  | [] => processes
  | (name, filename) :: r =>
      let worker_path := EmWorkers filename in
      if existe worker_path then
        match run_worker worker_path with
        | Some process => percorre_tabela r (processes ++ [(name, process)])%list
        | None => percorre_tabela r processes
        end
      else percorre_tabela r processes
  end.

(** [run_all_workers] *)
Definition run_all_workers : list (string * processo) := percorre_tabela WORKERS [].

(** The loop of [main] over [args.workers]. *)
Fixpoint percorre_nomes (workers : list string) (processes : list (string * processo))
  : list (string * processo) :=
  match workers with
  | [] => processes
  | worker_name :: r =>
      match run_worker (get_worker_path worker_name) with
      | Some process => percorre_nomes r (processes ++ [(worker_name, process)])%list
      | None => percorre_nomes r processes
      end
  end.

(** The parsed command line: [--all], the [--worker] options ([None]
    when there is none) and [--list]. *)
Record argumentos : Type := {
  all : bool;
  workers : option (list string);
  list_ : bool
}.

(** How [main] ends: the table listed, the help printed, [sys.exit(1)],
    or the processes handed to [monitor_processes]. *)
Inductive desfecho_main : Type :=
| Listou
| Ajuda
| Sai1
| Monitora (processes : list (string * processo)).

(** [main], after [parse_args]. *)
Definition main (args : argumentos) : desfecho_main :=
  if list_ args then Listou
  else
    let escolha :=
      if all args then Some run_all_workers
      else
        match workers args with
        | Some (w :: ws) => Some (percorre_nomes (w :: ws) [])
        | _ => None
        end in
    match escolha with
    | None => Ajuda
    | Some [] => Sai1
    | Some processes => Monitora processes
    end.

End ComArquivos.

End RunWorkers.

(* ===================================================================== *)
(** * Vocabulary of the statements *)
(* ===================================================================== *)
Import IbmRpaHttp RunWorkers.
Import Py Camunda IbmRpa OracleAutorizacao.

(** Two characters that are the two cases of one ASCII letter. *)
Definition par_de_caixa (a b : ascii) : Prop :=
  let x := nat_of_ascii a in
  let y := nat_of_ascii b in
  ((65 <= x <= 90)%nat /\ y = (x + 32)%nat) \/ ((65 <= y <= 90)%nat /\ x = (y + 32)%nat).

(** Two strings that differ at most in the case of their letters. *)
Inductive so_caixa : string -> string -> Prop :=
| so_caixa_vazio : so_caixa EmptyString EmptyString
| so_caixa_letra a b r1 r2 :
    a = b \/ par_de_caixa a b ->
    so_caixa r1 r2 ->
    so_caixa (String a r1) (String b r2).

(** [c in s] for a character. *)
Fixpoint contem (c : ascii) (s : string) : bool :=
  match s with
  | EmptyString => false
  | String x r => orb (Ascii.eqb x c) (contem c r)
  end.

(** ** The poller *)

(** The timeout budget in milliseconds. *)
Definition orcamento (c : IBMRPAConfig) : Z := 1000 * timeout_seconds c.

(** A reply after which the loop goes round again: a network error, or a
    body whose status string the mapper does not send to a final status. *)
Definition nao_terminal (r : resultado pyval) : bool :=
  match r with
  | Levanta e => eh_RequestException e
  | Ret data =>
      match metodo_get data "status" (PStr "") with
      | Ret (PStr s) =>
          match mapear s with
          | Retorna _ => false
          | _ => true
          end
      | _ => false
      end
  end.

(** The clock at the head of turn [k] when every earlier turn slept. *)
Fixpoint relogio (c : IBMRPAConfig) (w : remoto) (t0 : Z) (k : nat) : Z :=
  match k with
  | O => t0
  | S j => relogio c w t0 j + dur_consulta w j + 1000 * poll_interval_seconds c
  end.

Definition eh_sleep (e : evento) : bool :=
  match e with EvSleep _ => true | _ => false end.

Definition eh_consulta (e : evento) : bool :=
  match e with EvConsulta _ _ => true | _ => false end.

Definition conta (p : evento -> bool) (tr : list evento) : nat :=
  List.length (filter p tr).

(** The [error_msg] of the failure branch. *)
Definition erro_remoto (d : dict) : pyval :=
  ou (get_ou d "errorMessage" PNone) (ou (get_ou d "error" PNone) (PStr "Erro desconhecido")).

(** The log lines a turn may write between its query and its sleep. *)
Definition meio_ok (mid : list evento) : Prop :=
  mid = [] \/ mid = [EvErroConsulta] \/ exists s, mid = [EvAvisoDesconhecido s].

(** After the sleep that follows query [k]: nothing yet, query [k+1]
    being the next one to issue, or query [k+1]. *)
Definition segue (k : nat) (depois : list evento) (n : nat) : Prop :=
  match depois with
  | [] => n = S k
  | x :: _ => exists t', x = EvConsulta (S k) t'
  end.

(** In a finished run, after the sleep that follows query [k]: the
    timeout log line, or query [k+1]. *)
Definition retomou (k : nat) (depois : list evento) : Prop :=
  match depois with
  | [] => False
  | x :: _ => x = EvAvisoTimeout \/ exists t', x = EvConsulta (S k) t'
  end.

(** What holds of the state at the head of every turn: the clock is the
    sum of what the earlier turns took, the timeout has not been
    reported, each earlier turn queried once and slept once, every query
    was issued inside the budget counted from [t0], and a query that met
    a network error was followed by the error log line and one sleep. *)
Definition cabeca_ok (c : IBMRPAConfig) (w : remoto) (t0 : Z) (st : estado) : Prop :=
  agora st = relogio c w t0 (consultas st)
  /\ ~ In EvAvisoTimeout (traco st)
  /\ conta eh_sleep (traco st) = consultas st
  /\ conta eh_consulta (traco st) = consultas st
  /\ (forall k t, In (EvConsulta k t) (traco st) ->
        t = relogio c w t0 k /\ t - t0 < orcamento c)
  /\ (forall k t e, In (EvConsulta k t) (traco st) ->
        resp_consulta w k = Levanta e -> eh_RequestException e = true ->
        exists antes depois,
          traco st = (antes ++ EvConsulta k t :: EvErroConsulta
                        :: EvSleep (poll_interval_seconds c) :: depois)%list
          /\ segue k depois (consultas st)).

(** The tuple a final status leaves the loop with, for the body [d]. *)
Definition desfecho_final (rs : RPAStatus) (d : dict) : desfecho :=
  match rs with
  | SUCESSO =>
      (SUCESSO, TLit "Processo concluído com sucesso",
       PDict [("outputs", ou (get_ou d "outputs" (PDict [])) (get_ou d "output" (PDict [])));
              ("variables", get_ou d "variables" (PList []))])
  | _ => (ERRO, TCat (TLit "Processo falhou: ") (py_str (erro_remoto d)), PDict d)
  end.

(** ** The extractor *)

(** The three result fields read from the payload. *)
Inductive campo : Type := CNumero | CStatus | CGuia.

Definition aliases_de (f : campo) : list string :=
  match f with
  | CNumero => aliases_numero
  | CStatus => aliases_status
  | CGuia => aliases_guia
  end.

(** The name of the field among the result variables. *)
Definition nome_campo (f : campo) : string :=
  match f with
  | CNumero => "numero_autorizacao"
  | CStatus => "status_autorizacao"
  | CGuia => "nr_guia_requisicao"
  end.

(** The field as the handler reports it. *)
Definition valor_campo (f : campo) (cs : campos) : saida :=
  match f with
  | CNumero => saida_de (numero_autorizacao cs)
  | CStatus => saida_de (status_autorizacao cs)
  | CGuia => saida_texto (nr_guia_requisicao cs)
  end.

(** The field holds the payload value [v]; the guide number holds it as
    text, through [int] when it is a float. *)
Definition valor_lido (f : campo) (v : pyval) (cs : campos) : Prop :=
  match f with
  | CNumero => numero_autorizacao cs = v
  | CStatus => status_autorizacao cs = v
  | CGuia => exists t, texto_guia v = Ret t /\ nr_guia_requisicao cs = Some t
  end.

(** The value of [o.get(a1) or ... or o.get(an)]. *)
Fixpoint escolhe (o : dict) (aliases : list string) : pyval :=
  match aliases with
  | [] => PNone
  | [a] => get_ou o a PNone
  | a :: r => ou (get_ou o a PNone) (escolhe o r)
  end.

Definition eh_dict (v : pyval) : Prop := exists d, v = PDict d.

(** A payload that holds no alias of the field [f], neither as a key of
    its outputs map nor as the name of an entry of its variables list. *)
Definition sem_alias (f : campo) (rpa_output : pyval) : Prop :=
  match rpa_output with
  | PDict d =>
      (forall o, get_ou d "outputs" (PDict []) = PDict o ->
         forall a, In a (aliases_de f) -> dict_get o a = None)
      /\ (forall l, get_ou d "variables" (PList []) = PList l ->
            forall dv, In (PDict dv) l ->
              em_tupla (get_ou dv "name" (PStr "")) (aliases_de f) = false)
  | _ => True
  end.

(** The reading of "first alias found wins" by presence: the value under
    the first alias, in the order of preference, that is a key of [o]. *)
Fixpoint primeiro_presente (o : dict) (aliases : list string) : option pyval :=
  match aliases with
  | [] => None
  | a :: r =>
      match dict_get o a with
      | Some v => Some v
      | None => primeiro_presente o r
      end
  end.

(** ** Concrete inputs *)

(** The double [95687.0]: 53 bits of mantissa, exponent [-36]. *)
Definition float_95687 : spec_float := S754_finite false 6575560570437632 (-36).

Definition config_exemplo : IBMRPAConfig :=
  {| process_id := "proc-autorizacao"; timeout_seconds := 30; poll_interval_seconds := 5 |}.

Definition corpo_status (s : string) : pyval := PDict [("status", PStr s)].

Definition corpo_concluido : dict :=
  [("status", PStr "done");
   ("outputs", PDict [("status_autorizacao", PStr "Autorizado");
                      ("nrGuiaRequisicao", PFloat float_95687)])].

(** A remote side that always answers [running], each query taking 200 ms. *)
Definition remoto_sempre_running : remoto :=
  {| resp_consulta := fun _ => Ret (corpo_status "running");
     dur_consulta := fun _ => 200;
     resp_inicio := fun _ => Ret (PDict [("id", PStr "inst-1")]) |}.

(** A remote side whose first query fails on the network, whose second
    answers [RUNNING] and whose later ones answer [done]. *)
Definition remoto_falha_e_conclui : remoto :=
  {| resp_consulta := fun k =>
       match k with
       | O => Levanta RequestException
       | S O => Ret (corpo_status "RUNNING")
       | _ => Ret (PDict corpo_concluido)
       end;
     dur_consulta := fun _ => 200;
     resp_inicio := fun _ => Ret (PDict [("id", PStr "inst-1")]) |}.

(** Outputs with an empty guide number under the first alias and a guide
    number under the second. *)
Definition outputs_primeiro_vazio : dict :=
  [("nr_guia_requisicao", PStr ""); ("nrGuiaRequisicao", PStr "95687")].

(** Outputs whose guide number is the float zero under [nrGuiaRequisicao]. *)
Definition outputs_guia_zero : dict :=
  [("nrGuiaRequisicao", PFloat (S754_zero false))].

(** Outputs with the guide number [95687.0] under [nrGuiaRequisicao] and
    another value under the third alias. *)
Definition outputs_guia_float : dict :=
  [("nrGuiaRequisicao", PFloat float_95687); ("guia_requisicao", PStr "111")].

(** The output of a successful run with the given outputs and variables. *)
Definition saida_rpa (outputs : dict) (variables : list pyval) : pyval :=
  PDict [("outputs", PDict outputs); ("variables", PList variables)].

(** A task whose [convenio_codigo] is not a number. *)
Definition tarefa_convenio_invalido : ExternalTask :=
  {| task_id := "task-1";
     get_variables := [("paciente_nome", PStr "Maria");
                       ("convenio_codigo", PStr "abc")] |}.

Definition tarefa_exemplo : ExternalTask :=
  {| task_id := "task-2";
     get_variables := [("paciente_nome", PStr "Maria");
                       ("convenio_codigo", PInt 12);
                       ("procedimento_codigo", PStr "4031")] |}.

(** ** The Oracle repository *)

(** A repository state between two methods: the open handles are the one
    the [_connection] field holds, [close] has not been called, and with
    the field empty no [connect] has succeeded. *)
Definition coerente (s : repositorio) : Prop :=
  abertas s = match _connection s with Some h => [h] | None => [] end
  /\ (forall b, ~ In (Close, b) (historico s))
  /\ (_connection s = None -> ~ In (Connect, true) (historico s)).

(** A method that keeps the repository coherent, whatever it returns. *)
Definition preserva {A : Type} (m : M A) : Prop :=
  forall s, coerente s -> coerente (snd (m s)).

(** A driver on which every call returns. *)
Definition driver_ok : driver := fun _ _ => None.

(** A driver whose [execute] of the guide procedure fails. *)
Definition driver_execute_falha : driver :=
  fun c _ => match c with ExecuteGuia _ _ => Some DatabaseError | _ => None end.

(** A driver whose [cursor()] is interrupted from the keyboard. *)
Definition driver_interrompido : driver :=
  fun c _ => match c with Cursor => Some KeyboardInterrupt | _ => None end.

Definition tarefa_autorizacao : ExternalTask :=
  {| task_id := "task-3";
     get_variables := [("nr_sequencia", PInt 123);
                       ("nr_guia_requisicao", PStr "95687");
                       ("status_autorizacao", PStr "Autorizado")] |}.

(** A budget of ten seconds polled every five. *)
Definition config_curto : IBMRPAConfig :=
  {| process_id := "proc-autorizacao"; timeout_seconds := 10; poll_interval_seconds := 5 |}.

(** The payload built for [tarefa_exemplo]. *)
Definition payload_exemplo : dict :=
  [("paciente_nome", PStr "Maria");
   ("convenio_codigo", PInt 12);
   ("procedimento_codigo", PInt 4031);
   ("medico_crm", PInt 0);
   ("guia_solicitacao", PInt 0)].

(** Where the poller stands when [config_curto] meets
    [remoto_sempre_running]: two queries, two sleeps, the timeout. *)
Definition estado_fim_curto : estado :=
  {| agora := 10400;
     consultas := 2;
     traco := [EvConsulta 0 0; EvSleep 5; EvConsulta 1 5200; EvSleep 5; EvAvisoTimeout] |}.

(** ** More vocabulary for the RPA worker *)

(** A task variable that is absent, [None] or an integer, as the
    docstring of the handler types the four codes. *)
Definition inteiro_ou_ausente (variables : dict) (k : string) : Prop :=
  match dict_get variables k with
  | None | Some PNone | Some (PInt _) => True
  | _ => False
  end.

(** The integer such a variable stands for. *)
Definition codigo_de (variables : dict) (k : string) : Z :=
  match dict_get variables k with
  | Some (PInt z) => z
  | _ => 0
  end.

Definition eh_str (v : pyval) : bool :=
  match v with PStr _ => true | _ => false end.

(** ** The transaction discipline of the repository *)

Definition eh_execute (c : chamada) : bool :=
  match c with ExecuteGuia _ _ | ExecuteEstagio _ _ => true | _ => false end.

(** A call of the transaction proper: [cursor], [execute] or [commit]. *)
Definition eh_trabalho (c : chamada) : bool :=
  match c with Cursor | Commit => true | _ => eh_execute c end.

(** Whether the call [b] may come right after the call [a]: an [execute]
    after a [cursor] that returned, a [commit] after an [execute] that
    returned, a [rollback] after a failed call of the transaction or after
    a [cursor] (when the status mapping raises), nothing but [rollback] or
    [close] after such a failure, and nothing after [close]. *)
Definition par_ok (a b : chamada * bool) : bool :=
  let '(ca, ra) := a in
  let '(cb, _) := b in
  match ca with
  | Close => false
  | _ =>
      if andb (eh_trabalho ca) (negb ra)
      then match cb with Rollback | Close => true | _ => false end
      else
        match cb with
        | ExecuteGuia _ _ | ExecuteEstagio _ _ =>
            match ca with Cursor => ra | _ => false end
        | Commit => andb (eh_execute ca) ra
        | Rollback => match ca with Cursor => true | _ => false end
        | _ => true
        end
  end.

Fixpoint disciplina (h : list (chamada * bool)) : bool :=
  match h with
  | a :: ((b :: _) as r) => andb (par_ok a b) (disciplina r)
  | _ => true
  end.

(** The number of connections the history shows opened. *)
Definition conexoes_abertas (h : list (chamada * bool)) : nat :=
  List.length (filter (fun cb => match cb with (Connect, true) => true | _ => false end) h).

(** Every call returned and none was a [rollback]. *)
Definition limpa (h : list (chamada * bool)) : bool :=
  forallb (fun cb => match cb with
                     | (Rollback, _) => false
                     | (_, ok) => ok
                     end) h.

(** The stage a success result reports, if any. *)
Definition estagio_relatado (r : resultado TaskResult) : option Z :=
  match r with
  | Ret (Success vars) =>
      match variavel vars "nr_seq_estagio" with
      | Some (SVal (PInt k)) => Some k
      | _ => None
      end
  | _ => None
  end.

Definition status_relatado (r : resultado TaskResult) : option string :=
  match r with
  | Ret (Success vars) =>
      match variavel vars "oracle_status" with
      | Some (STexto (TLit s)) => Some s
      | _ => None
      end
  | _ => None
  end.

(** [execute] of the stage procedure for stage [k] returned and the
    [commit] after it returned. *)
Fixpoint estagio_gravado (k : Z) (h : list (chamada * bool)) : bool :=
  match h with
  | (ExecuteEstagio _ k', true) :: (((Commit, true) :: _) as r) =>
      orb (k' =? k) (estagio_gravado k r)
  | _ :: r => estagio_gravado k r
  | [] => false
  end.

(** What holds of every finished run of the [try]/[finally] of the
    handler, read off the result and the history alone. *)
Definition verifica (r : resultado TaskResult) (s : repositorio) : bool :=
  disciplina (historico s)
  && (conexoes_abertas (historico s) <=? 1)%nat
  && match status_relatado r with
     | Some "SUCESSO" => limpa (historico s)
     | Some "ERRO" => negb (limpa (historico s))
     | Some _ => false
     | None => match r with Levanta _ => true | _ => false end
     end
  && match estagio_relatado r with
     | Some k => estagio_gravado k (historico s)
     | None => true
     end.

(** White space made only of the characters [strip] removes. *)
Fixpoint so_espacos (s : string) : bool :=
  match s with
  | EmptyString => true
  | String c r => eh_espaco c && so_espacos r
  end.

(** ** The HTTP client and the launcher *)

(** A call on the client. *)
Inductive acao : Type :=
| AIniciar (process_id : string) (payload : dict)
| AConsultar (process_id : string) (instance_id : pyval).

Definition executa (srv : servidor) (a : acao) : C pyval :=
  match a with
  | AIniciar pid payload => IbmRpaHttp.iniciar_processo srv pid payload
  | AConsultar pid iid => consultar_status_instancia srv pid iid
  end.

(** Calls made one after the other on the same client, whatever each
    returns or raises. *)
Fixpoint executa_todas (srv : servidor) (l : list acao) (s : cliente) : cliente :=
  match l with
  | [] => s
  | a :: r => executa_todas srv r (snd (executa srv a s))
  end.

(** The token a request carries. *)
Definition token_de (q : requisicao) : option pyval :=
  match q with
  | PostToken => None
  | PostInstance _ _ t => Some t
  | GetInstance _ _ t => Some t
  end.

Definition eh_post_token (q : requisicao) : bool :=
  match q with PostToken => true | _ => false end.

(** The process [run_all_workers] starts for an entry of the table. *)
Definition processo_de (entrada : string * string) : string * processo :=
  (fst entrada, Popen (EmWorkers (snd entrada))).

(** ** More concrete inputs *)

(** A configuration with no time budget. *)
Definition config_sem_orcamento : IBMRPAConfig :=
  {| process_id := "proc-autorizacao"; timeout_seconds := 0; poll_interval_seconds := 5 |}.



(** A result whose outputs hold the authorisation number only, the
    status coming twice in the variables list. *)
Definition variavel_numero : dict :=
  [("name", PStr "numero_autorizacao"); ("value", PStr "A-2")].
Definition variavel_status : dict :=
  [("name", PStr "statusAutorizacao"); ("value", PStr "Autorizado")].
Definition variavel_status_tardia : dict :=
  [("name", PStr "status_autorizacao"); ("value", PStr "Negado")].
Definition outputs_so_numero : dict := [("numero_autorizacao", PStr "A-1")].
Definition resultado_com_variaveis : dict :=
  [("outputs", PDict outputs_so_numero);
   ("variables", PList [PDict variavel_numero; PDict variavel_status;
                        PDict variavel_status_tardia])].

(** A server that answers every request with a body holding a token and
    an id. *)
Definition servidor_exemplo : servidor :=
  fun _ _ => Ret (PDict [("access_token", PStr "tok-1"); ("id", PStr "inst-1")]).

(** A server whose bodies hold no token. *)
Definition servidor_sem_token : servidor :=
  fun _ _ => Ret (PDict [("id", PStr "inst-1")]).

Definition cliente_com_token : cliente :=
  {| _access_token := PStr "tok-0"; enviadas := [PostToken] |}.

Definition acoes_exemplo : list acao :=
  [AIniciar "proc-autorizacao" payload_exemplo;
   AConsultar "proc-autorizacao" (PStr "inst-1");
   AConsultar "proc-autorizacao" (PStr "inst-1")].

(** A task with the sequence number alone, as text. *)
Definition tarefa_so_sequencia : ExternalTask :=
  {| task_id := "task-4"; get_variables := [("nr_sequencia", PStr " 123 ")] |}.

(** ** Vocabulary of the amended claims *)

(** The last alias of a field, the one the [or] chain ends with. *)
Definition ultimo_alias (f : campo) : string := List.last (aliases_de f) "".

(** The field holds the raw value [v] the [or] chain gave: as it is for
    the number and the status; for the guide number, [None] when [v] is
    [None] and the text of [v] otherwise. *)
Definition valor_final (f : campo) (v : pyval) (cs : campos) : Prop :=
  match f with
  | CNumero => numero_autorizacao cs = v
  | CStatus => status_autorizacao cs = v
  | CGuia =>
      if eh_None v then nr_guia_requisicao cs = None
      else exists t, texto_guia v = Ret t /\ nr_guia_requisicao cs = Some t
  end.

(** A value [int()] accepts when it is a float: not an infinity, not a
    NaN. *)
Definition finito (v : pyval) : bool :=
  match v with
  | PFloat f => match int_de_float f with Ret _ => true | Levanta _ => false end
  | _ => true
  end.

(** An entry of the variables list as the remote side documents it: a
    dict, whose value is not a float [int()] refuses. *)
Definition variavel_bem_formada (var : pyval) : bool :=
  match var with
  | PDict dv => finito (get_ou dv "value" PNone)
  | _ => false
  end.

(** A payload shaped as the remote protocol gives it: the outputs are a
    map whose guide-number values [int()] accepts, and the variables,
    when a list, hold only well-formed entries. *)
Definition bem_formado (rpa_output : pyval) : bool :=
  match rpa_output with
  | PDict d =>
      match get_ou d "outputs" (PDict []) with
      | PDict o => forallb (fun a => finito (get_ou o a PNone)) aliases_guia
      | _ => false
      end
      && match get_ou d "variables" (PList []) with
         | PList l => forallb variavel_bem_formada l
         | _ => true
         end
  | _ => true
  end.

(** Outputs whose only guide number is the float zero under the last
    alias. *)
Definition outputs_guia_zero_ultimo : dict :=
  [("guia_requisicao", PFloat (S754_zero false))].

(** A result without any alias whose variables list holds a string
    instead of a dict. *)
Definition saida_malformada : pyval := saida_rpa [] [PStr "oops"].

(** A remote side that ends at once with that result. *)
Definition remoto_variaveis_malformadas : remoto :=
  {| resp_consulta := fun _ =>
       Ret (PDict [("status", PStr "done"); ("variables", PList [PStr "oops"])]);
     dur_consulta := fun _ => 200;
     resp_inicio := fun _ => Ret (PDict [("id", PStr "inst-1")]) |}.

(** A driver whose [close] fails. *)
Definition driver_close_falha : driver :=
  fun c _ => match c with Close => Some DatabaseError | _ => None end.

(* ===================================================================== *)
(** * Facts about the Python fragment *)
(* ===================================================================== *)

Lemma maiuscula_de_maiuscula a :
  (65 <= nat_of_ascii a <= 90)%nat -> maiuscula a = a.
Proof.
  intros [H1 H2]. unfold maiuscula.
  destruct (Nat.leb_spec 97 (nat_of_ascii a)) as [H|H]; simpl; [lia | reflexivity].
Qed.

Lemma maiuscula_de_minuscula a b :
  (65 <= nat_of_ascii a <= 90)%nat ->
  nat_of_ascii b = (nat_of_ascii a + 32)%nat ->
  maiuscula b = a.
Proof.
  intros [H1 H2] Hb. unfold maiuscula. rewrite Hb.
  destruct (Nat.leb_spec 97 (nat_of_ascii a + 32)) as [H|H]; [|lia].
  destruct (Nat.leb_spec (nat_of_ascii a + 32) 122) as [H'|H']; [|lia].
  simpl. replace (nat_of_ascii a + 32 - 32)%nat with (nat_of_ascii a) by lia.
  apply ascii_nat_embedding.
Qed.

Lemma par_de_caixa_maiuscula a b : par_de_caixa a b -> maiuscula a = maiuscula b.
Proof.
  intros [[Ha Hb]|[Hb Ha]].
  - rewrite (maiuscula_de_maiuscula a Ha). symmetry.
    now apply maiuscula_de_minuscula.
  - rewrite (maiuscula_de_maiuscula b Hb).
    now apply maiuscula_de_minuscula.
Qed.

Lemma so_caixa_upper s1 s2 : so_caixa s1 s2 -> upper s1 = upper s2.
Proof.
  induction 1 as [|a b r1 r2 [Hab|Hab] _ IH]; simpl.
  - reflexivity.
  - now rewrite Hab, IH.
  - now rewrite (par_de_caixa_maiuscula a b Hab), IH.
Qed.

Lemma digitos_sem_ponto d : contem "." (NilEmpty.string_of_uint d) = false.
Proof. induction d; simpl; auto. Qed.

Lemma decimal_sem_ponto z : contem "." (decimal z) = false.
Proof.
  unfold decimal. destruct z as [|p|p]; simpl.
  - reflexivity.
  - destruct (Pos.to_uint p); try reflexivity; apply (digitos_sem_ponto (_ _)).
  - destruct (Pos.to_uint p); try reflexivity; apply (digitos_sem_ponto (_ _)).
Qed.

Lemma decimal_nao_vazio z : (decimal z =? "")%string = false.
Proof.
  unfold decimal. destruct z as [|p|p]; simpl; try reflexivity.
  destruct (Pos.to_uint p); reflexivity.
Qed.

(* ===================================================================== *)
(** * The polling loop *)
(* ===================================================================== *)
Section Poller.
Variable c : IBMRPAConfig.
Variable w : remoto.
Variable t0 : Z.

Lemma dormir_continua s st st' :
  dormir s st = Continua st' ->
  0 <= s /\ agora st' = agora st + 1000 * s /\ consultas st' = consultas st /\
  traco st' = (traco st ++ [EvSleep s])%list.
Proof.
  unfold dormir. destruct (Z.ltb_spec s 0) as [Hs|Hs]; intros H; inversion H; subst; simpl.
  repeat split; auto.
Qed.

Lemma dormir_termina s st r st' :
  dormir s st = Termina r st' -> s < 0 /\ r = Levanta ValueError /\ st' = st.
Proof.
  unfold dormir. destruct (Z.ltb_spec s 0) as [Hs|Hs]; intros H; inversion H; subst; auto.
Qed.

(** What a turn that goes round again has done. *)
Lemma iteracao_continua st st' :
  iteracao c w t0 st = Continua st' ->
  agora st - t0 < orcamento c /\
  0 <= poll_interval_seconds c /\
  agora st' = agora st + dur_consulta w (consultas st) + 1000 * poll_interval_seconds c /\
  consultas st' = S (consultas st) /\
  nao_terminal (resp_consulta w (consultas st)) = true /\
  exists mid, meio_ok mid /\
    traco st' = (traco st ++ EvConsulta (consultas st) (agora st) :: mid
                 ++ [EvSleep (poll_interval_seconds c)])%list.
Proof.
  unfold iteracao, orcamento, nao_terminal, mapear.
  destruct (Z.leb_spec (1000 * timeout_seconds c) (agora st - t0)) as [Hb|Hb];
    [discriminate|].
  destruct (resp_consulta w (consultas st)) as [data|e].
  - destruct (metodo_get data "status" (PStr "")) as [sv|e]; simpl; [|discriminate].
    destruct sv; simpl; try discriminate.
    destruct (classificar (upper s)) as [[]| |] eqn:Hc; try discriminate; intros H;
      apply dormir_continua in H; simpl in H; destruct H as (H1 & H2 & H3 & H4);
      repeat split; auto.
    + exists []. split; [left; reflexivity|]. rewrite H4, <- app_assoc. reflexivity.
    + exists [EvAvisoDesconhecido (upper s)]. split; [right; right; eauto|].
      rewrite H4, <- !app_assoc. reflexivity.
  - destruct (eh_RequestException e) eqn:He; [|discriminate].
    intros H. apply dormir_continua in H; simpl in H; destruct H as (H1 & H2 & H3 & H4).
    repeat split; auto.
    exists [EvErroConsulta]. split; [right; left; reflexivity|].
    rewrite H4, <- !app_assoc. reflexivity.
Qed.

Ltac fim_direto H :=
  solve [ inversion H; subst; simpl; repeat split; try discriminate;
          try (intros ? ?He; inversion He; subst; (reflexivity || assumption));
          try congruence;
          try (exists []; split; [left; reflexivity|reflexivity]) ].

(** What a turn that leaves the loop has done: either the budget was
    spent and it reports [TIMEOUT] without querying, or it queried. *)
Lemma iteracao_termina st r st' :
  iteracao c w t0 st = Termina r st' ->
  (orcamento c <= agora st - t0 /\
   r = Ret (TIMEOUT, TLit ("Timeout após " ++ decimal (timeout_seconds c) ++ "s"), PNone) /\
   st' = registra st EvAvisoTimeout)
  \/
  (agora st - t0 < orcamento c /\
   consultas st' = S (consultas st) /\
   (forall m o, r <> Ret (TIMEOUT, m, o)) /\
   (forall m o, r <> Ret (PENDENTE, m, o)) /\
   (forall e, r = Levanta e -> eh_RequestException e = false) /\
   (nao_terminal (resp_consulta w (consultas st)) = true -> poll_interval_seconds c < 0) /\
   exists mid, meio_ok mid /\
     traco st' = (traco st ++ EvConsulta (consultas st) (agora st) :: mid)%list).
Proof.
  unfold iteracao, orcamento, nao_terminal, mapear.
  destruct (Z.leb_spec (1000 * timeout_seconds c) (agora st - t0)) as [Hb|Hb].
  - intros H; inversion H; subst. left. auto.
  - intros H. right. split; [assumption|].
    destruct (resp_consulta w (consultas st)) as [data|e].
    + destruct data as [ | | | | | |d]; simpl in H; try (fim_direto H).
      simpl.
      destruct (match dict_get d "status" with Some x => x | None => PStr "" end)
        as [ | | | |s| | ]; simpl in H; try (fim_direto H).
      destruct (classificar (upper s)) as [[]| |] eqn:Hc; try (fim_direto H);
        apply dormir_termina in H; destruct H as (Hneg & Hr & Hst); subst r st'; simpl;
        repeat split; try discriminate; try (intros _; assumption);
        try (intros e He; inversion He; reflexivity).
      * exists []. split; [left; reflexivity|reflexivity].
      * exists [EvAvisoDesconhecido (upper s)]. split; [right; right; eauto|].
        rewrite <- app_assoc. reflexivity.
    + destruct (eh_RequestException e) eqn:He.
      * apply dormir_termina in H; destruct H as (Hneg & Hr & Hst); subst r st'; simpl.
        repeat split; try discriminate; try (intros _; assumption);
          try (intros e' He'; inversion He'; reflexivity).
        exists [EvErroConsulta]. split; [right; left; reflexivity|].
        rewrite <- app_assoc. reflexivity.
      * fim_direto H.
Qed.

Lemma iteracao_timeout st :
  orcamento c <= agora st - t0 ->
  iteracao c w t0 st =
  Termina (Ret (TIMEOUT, TLit ("Timeout após " ++ decimal (timeout_seconds c) ++ "s"), PNone))
          (registra st EvAvisoTimeout).
Proof.
  unfold iteracao, orcamento. intros H.
  destruct (Z.leb_spec (1000 * timeout_seconds c) (agora st - t0)); [reflexivity|lia].
Qed.

Lemma iteracao_erro_de_rede st e :
  agora st - t0 < orcamento c ->
  0 <= poll_interval_seconds c ->
  resp_consulta w (consultas st) = Levanta e ->
  eh_RequestException e = true ->
  iteracao c w t0 st =
  Continua {| agora := agora st + dur_consulta w (consultas st)
                       + 1000 * poll_interval_seconds c;
              consultas := S (consultas st);
              traco := (traco st ++ [EvConsulta (consultas st) (agora st);
                                     EvErroConsulta;
                                     EvSleep (poll_interval_seconds c)])%list |}.
Proof.
  unfold iteracao, orcamento, dormir. intros Hb Hi Hr He.
  destruct (Z.leb_spec (1000 * timeout_seconds c) (agora st - t0)); [lia|].
  rewrite Hr, He. simpl.
  destruct (Z.ltb_spec (poll_interval_seconds c) 0); [lia|].
  rewrite <- !app_assoc. reflexivity.
Qed.

Lemma iteracao_nao_terminal st :
  agora st - t0 < orcamento c ->
  0 <= poll_interval_seconds c ->
  nao_terminal (resp_consulta w (consultas st)) = true ->
  exists st', iteracao c w t0 st = Continua st'.
Proof.
  intros Hb Hi Hn. destruct (iteracao c w t0 st) as [r st'|st'] eqn:Hit; [|eauto].
  apply iteracao_termina in Hit.
  destruct Hit as [(H & _)|(_ & _ & _ & _ & _ & H & _)]; [lia|].
  specialize (H Hn). lia.
Qed.

Lemma mapear_final s rs : mapear s = Retorna rs -> rs = SUCESSO \/ rs = ERRO.
Proof.
  unfold mapear, classificar.
  repeat match goal with |- context [if ?b then _ else _] => destruct b end;
    intros H; inversion H; auto.
Qed.

Lemma iteracao_final st d s rs :
  agora st - t0 < orcamento c ->
  resp_consulta w (consultas st) = Ret (PDict d) ->
  get_ou d "status" (PStr "") = PStr s ->
  mapear s = Retorna rs ->
  iteracao c w t0 st =
  Termina (Ret (desfecho_final rs d))
          {| agora := agora st + dur_consulta w (consultas st);
             consultas := S (consultas st);
             traco := (traco st ++ [EvConsulta (consultas st) (agora st)])%list |}.
Proof.
  unfold iteracao, orcamento, mapear, get_ou. intros Hb Hr Hs Hm.
  destruct (Z.leb_spec (1000 * timeout_seconds c) (agora st - t0)); [lia|].
  rewrite Hr. simpl. rewrite Hs. simpl. rewrite Hm.
  destruct (mapear_final s rs Hm) as [->| ->]; reflexivity.
Qed.

(** ** The loop *)

Lemma laco_mono fuel : forall st x,
  aguardar_laco c w t0 fuel st = Some x ->
  forall fuel', (fuel <= fuel')%nat -> aguardar_laco c w t0 fuel' st = Some x.
Proof.
  induction fuel as [|f IH]; intros st x H fuel' Hle; [discriminate|].
  destruct fuel' as [|f']; [lia|]. simpl in *.
  destruct (iteracao c w t0 st); [assumption|].
  apply IH with (fuel' := f') in H; [assumption|lia].
Qed.

(** An invariant of the turns that go round again holds at the head of
    the turn that leaves the loop. *)
Lemma laco_invariante (P : estado -> Prop) :
  (forall st st', P st -> iteracao c w t0 st = Continua st' -> P st') ->
  forall fuel st r st',
    P st ->
    aguardar_laco c w t0 fuel st = Some (r, st') ->
    exists stp, P stp /\ iteracao c w t0 stp = Termina r st'.
Proof.
  intros Hstep. induction fuel as [|f IH]; intros st r st' HP H; [discriminate|].
  simpl in H. destruct (iteracao c w t0 st) as [r1 st1|st1] eqn:Hit.
  - inversion H; subst. eauto.
  - apply (IH st1); eauto.
Qed.

(** As long as every turn lets the clock advance, the loop ends. *)
Lemma laco_termina :
  (forall k, 0 < dur_consulta w k + 1000 * poll_interval_seconds c) ->
  forall n st,
    orcamento c - (agora st - t0) <= Z.of_nat n ->
    exists fuel r st', aguardar_laco c w t0 fuel st = Some (r, st').
Proof.
  intros Hprog. induction n as [|n IH]; intros st Hn.
  - exists 1%nat. simpl. rewrite iteracao_timeout by lia. eauto.
  - destruct (iteracao c w t0 st) as [r1 st1|st1] eqn:Hit.
    + exists 1%nat, r1, st1. simpl. now rewrite Hit.
    + pose proof (iteracao_continua _ _ Hit) as (_ & _ & Ha & _).
      specialize (Hprog (consultas st)).
      destruct (IH st1) as (fuel & r & st' & H); [lia|].
      exists (S fuel), r, st'. simpl. now rewrite Hit.
Qed.

(** ** The trace *)

Lemma conta_app p l l' : conta p (l ++ l') = (conta p l + conta p l')%nat.
Proof. unfold conta. now rewrite filter_app, length_app. Qed.

Lemma meio_sem_consulta mid :
  meio_ok mid ->
  (forall k t, ~ In (EvConsulta k t) mid) /\ ~ In EvAvisoTimeout mid /\
  conta eh_sleep mid = 0%nat /\ conta eh_consulta mid = 0%nat.
Proof.
  intros [->|[->|[s ->]]]; (split; [|split; [|split]]); try reflexivity;
    simpl; intuition discriminate.
Qed.

Lemma cabeca_inicial : cabeca_ok c w t0 (estado_inicial t0).
Proof.
  unfold cabeca_ok; simpl. intuition.
Qed.

Lemma cabeca_passo st st' :
  cabeca_ok c w t0 st -> iteracao c w t0 st = Continua st' -> cabeca_ok c w t0 st'.
Proof.
  intros (Hclk & Hnt & Hsl & Hcq & Hq & Hnet) Hit.
  pose proof (iteracao_continua _ _ Hit) as (Hb & Hi & Ha & Hk & _ & mid & Hmid & Htr).
  pose proof (meio_sem_consulta mid Hmid) as (Hm1 & Hm2 & Hm3 & Hm4).
  assert (Hin : forall k t,
             In (EvConsulta k t)
                (traco st ++ EvConsulta (consultas st) (agora st)
                   :: mid ++ [EvSleep (poll_interval_seconds c)])%list ->
             In (EvConsulta k t) (traco st) \/ (k = consultas st /\ t = agora st)).
  { intros k t H. rewrite in_app_iff in H. destruct H as [H|[H|H]].
    - now left.
    - inversion H; subst. now right.
    - rewrite in_app_iff in H. destruct H as [H|[H|[]]]; [now apply Hm1 in H|discriminate]. }
  unfold cabeca_ok. rewrite Htr, Hk.
  change (EvConsulta (consultas st) (agora st) :: mid ++ [EvSleep (poll_interval_seconds c)])%list
    with ([EvConsulta (consultas st) (agora st)] ++ mid ++ [EvSleep (poll_interval_seconds c)])%list.
  split; [|split; [|split; [|split; [|split]]]].
  - rewrite Ha, Hclk. reflexivity.
  - rewrite !in_app_iff. simpl. intros [H|[[H|[]]|[H|[H|[]]]]]; try discriminate; tauto.
  - rewrite !conta_app, Hsl, Hm3. unfold conta. simpl. lia.
  - rewrite !conta_app, Hcq, Hm4. unfold conta. simpl. lia.
  - intros k t H. apply Hin in H. destruct H as [H|[-> ->]].
    + now apply Hq.
    + split; assumption.
  - intros k t e H Hr He. apply Hin in H. destruct H as [H|[-> ->]].
    + destruct (Hnet k t e H Hr He) as (antes & depois & Heq & Hseg).
      exists antes.
      exists (depois ++ [EvConsulta (consultas st) (agora st)]
                ++ mid ++ [EvSleep (poll_interval_seconds c)])%list.
      split.
      * rewrite Heq, <- app_assoc. reflexivity.
      * destruct depois as [|x depois]; simpl in *; [|assumption].
        rewrite Hseg. eauto.
    + rewrite (iteracao_erro_de_rede st e Hb Hi Hr He) in Hit.
      inversion Hit as [Hst].
      exists (traco st), []. split; [|reflexivity]. transitivity (traco st').
      * symmetry. exact Htr.
      * rewrite <- Hst. reflexivity.
Qed.

(** What holds of the state the loop leaves behind. *)
Lemma fim_do_laco fuel r st' :
  aguardar_conclusao c w fuel t0 = Some (r, st') ->
  (forall k t, In (EvConsulta k t) (traco st') ->
     t = relogio c w t0 k /\ t - t0 < orcamento c)
  /\ (forall e, r = Levanta e -> eh_RequestException e = false)
  /\ (forall m o, r <> Ret (PENDENTE, m, o))
  /\ (forall m o, r = Ret (TIMEOUT, m, o) ->
        orcamento c <= agora st' - t0 /\
        exists tr, traco st' = (tr ++ [EvAvisoTimeout])%list /\ ~ In EvAvisoTimeout tr)
  /\ (0 <= poll_interval_seconds c ->
      forall k t e, In (EvConsulta k t) (traco st') ->
        resp_consulta w k = Levanta e -> eh_RequestException e = true ->
        exists antes depois,
          traco st' = (antes ++ EvConsulta k t :: EvErroConsulta
                         :: EvSleep (poll_interval_seconds c) :: depois)%list
          /\ retomou k depois).
Proof.
  unfold aguardar_conclusao. intros H.
  destruct (laco_invariante (cabeca_ok c w t0) cabeca_passo fuel _ r st' cabeca_inicial H)
    as (stp & (Hclk & Hnt & Hsl & Hcq & Hq & Hnet) & Hit).
  apply iteracao_termina in Hit.
  destruct Hit as [(Hb & -> & ->)|(Hb & Hk & Hnt' & Hnp & Hex & Hnao & mid & Hmid & Htr)].
  - simpl. split; [|split; [|split; [|split]]].
    + intros k t H0. rewrite in_app_iff in H0.
      destruct H0 as [H0|[H0|[]]]; [now apply Hq in H0|discriminate].
    + intros e He; discriminate.
    + intros m o Hc; discriminate.
    + intros m o _. split; [assumption|].
      exists (traco stp). split; [reflexivity|assumption].
    + intros Hi k t e Hin Hr He.
      rewrite in_app_iff in Hin. destruct Hin as [Hin|[Hin|[]]]; [|discriminate].
      destruct (Hnet k t e Hin Hr He) as (antes & depois & Heq & Hseg).
      exists antes, (depois ++ [EvAvisoTimeout])%list. split.
      * rewrite Heq, <- app_assoc. reflexivity.
      * destruct depois; simpl in *; auto.
  - pose proof (meio_sem_consulta mid Hmid) as (Hm1 & _).
    rewrite Htr. split; [|split; [|split; [|split]]].
    + intros k t H0. rewrite in_app_iff in H0. destruct H0 as [H0|[H0|H0]].
      * now apply Hq in H0.
      * inversion H0; subst. split; assumption.
      * now apply Hm1 in H0.
    + assumption.
    + assumption.
    + intros m o Hc. now apply Hnt' in Hc.
    + intros Hi k t e Hin Hr He.
      rewrite in_app_iff in Hin. destruct Hin as [Hin|[Hin|Hin]].
      * destruct (Hnet k t e Hin Hr He) as (antes & depois & Heq & Hseg).
        exists antes, (depois ++ EvConsulta (consultas stp) (agora stp) :: mid)%list. split.
        -- rewrite Heq, <- app_assoc. reflexivity.
        -- destruct depois; simpl in *; [rewrite Hseg|]; eauto.
      * inversion Hin; subst k t. exfalso.
        assert (Hn : nao_terminal (resp_consulta w (consultas stp)) = true)
          by (rewrite Hr; exact He).
        apply Hnao in Hn. lia.
      * now apply Hm1 in Hin.
Qed.

(** Turns that all go round again, [m] of them. *)
Lemma laco_avanca :
  0 <= poll_interval_seconds c ->
  forall m st,
    cabeca_ok c w t0 st ->
    (forall j, (consultas st <= j < consultas st + m)%nat ->
       nao_terminal (resp_consulta w j) = true /\ relogio c w t0 j - t0 < orcamento c) ->
    exists stm,
      cabeca_ok c w t0 stm /\
      consultas stm = (consultas st + m)%nat /\
      forall fuel, aguardar_laco c w t0 (m + fuel) st = aguardar_laco c w t0 fuel stm.
Proof.
  intros Hi. induction m as [|m IH]; intros st Hst Hj.
  - exists st. split; [assumption|]. split; [lia|]. reflexivity.
  - destruct (Hj (consultas st)) as [Hn Hb]; [lia|].
    pose proof Hst as (Hclk & _). rewrite <- Hclk in Hb.
    destruct (iteracao_nao_terminal st Hb Hi Hn) as (st1 & Hit).
    pose proof (cabeca_passo st st1 Hst Hit) as Hst1.
    pose proof (iteracao_continua _ _ Hit) as (_ & _ & _ & Hk & _).
    destruct (IH st1 Hst1) as (stm & Hstm & Hkm & Hfuel).
    { intros j Hjr. apply Hj. lia. }
    exists stm. split; [assumption|]. split; [lia|].
    intros fuel. simpl. rewrite Hit. apply Hfuel.
Qed.

End Poller.

(* ===================================================================== *)
(** * The claims about the poller *)
(* ===================================================================== *)

(** C3.  When every reply is one after which the loop goes round again
    (a non-final status or a network error), the poll interval is not
    negative and every turn lets the clock advance, [aguardar_conclusao]
    with budget [timeout_seconds] returns [TIMEOUT] once enough fuel is
    given, at an elapsed time of at least the budget; the timeout log line
    is the last event of the trace, so no query follows it.  The mapper
    never sends a status string to [TIMEOUT], and under any remote side a
    [TIMEOUT] result is returned only with the budget spent. *)
Theorem c3_timeout_por_tempo :
  forall (c : IBMRPAConfig) (w : remoto) (t0 : Z),
    0 <= poll_interval_seconds c ->
    (forall k, 0 < dur_consulta w k + 1000 * poll_interval_seconds c) ->
    (forall k, nao_terminal (resp_consulta w k) = true) ->
    (exists fuel st tr,
        (forall fuel', (fuel <= fuel')%nat ->
           aguardar_conclusao c w fuel' t0 =
           Some (Ret (TIMEOUT,
                      TLit ("Timeout após " ++ decimal (timeout_seconds c) ++ "s"),
                      PNone), st))
        /\ orcamento c <= agora st - t0
        /\ traco st = (tr ++ [EvAvisoTimeout])%list
        /\ ~ In EvAvisoTimeout tr)
    /\ (forall s, mapear s <> Retorna TIMEOUT)
    /\ (forall w' fuel m o st,
          aguardar_conclusao c w' fuel t0 = Some (Ret (TIMEOUT, m, o), st) ->
          orcamento c <= agora st - t0).
Proof.
  intros c w t0 Hi Hprog Hnt. split; [|split].
  - destruct (laco_termina c w t0 Hprog (Z.to_nat (orcamento c)) (estado_inicial t0))
      as (fuel & r & st & Hrun); [simpl; lia|].
    destruct (laco_invariante c w t0 (cabeca_ok c w t0) (cabeca_passo c w t0)
                fuel _ r st (cabeca_inicial c w t0) Hrun)
      as (stp & (Hclk & Hno & _) & Hit).
    apply iteracao_termina in Hit.
    destruct Hit as [(Hb & -> & ->)|(_ & _ & _ & _ & _ & Hnao & _)].
    + exists fuel, (registra stp EvAvisoTimeout), (traco stp).
      repeat split; auto.
      intros fuel' Hle. unfold aguardar_conclusao.
      now apply (laco_mono c w t0 fuel _ _ Hrun).
    + specialize (Hnao (Hnt _)). lia.
  - intros s H. apply mapear_final in H. destruct H; discriminate.
  - intros w' fuel m o st Hrun.
    apply fim_do_laco in Hrun. destruct Hrun as (_ & _ & _ & Ht & _).
    now destruct (Ht m o eq_refl).
Qed.

Lemma c3_timeout_por_tempo_witness :
  0 <= poll_interval_seconds config_exemplo
  /\ (forall k, 0 < dur_consulta remoto_sempre_running k
                     + 1000 * poll_interval_seconds config_exemplo)
  /\ (forall k, nao_terminal (resp_consulta remoto_sempre_running k) = true)
  /\ exists fuel st tr,
       (forall fuel', (fuel <= fuel')%nat ->
          aguardar_conclusao config_exemplo remoto_sempre_running fuel' 0 =
          Some (Ret (TIMEOUT, TLit "Timeout após 30s", PNone), st))
       /\ orcamento config_exemplo <= agora st - 0
       /\ traco st = (tr ++ [EvAvisoTimeout])%list
       /\ ~ In EvAvisoTimeout tr.
Proof.
  assert (H1 : 0 <= poll_interval_seconds config_exemplo) by (simpl; lia).
  assert (H2 : forall k, 0 < dur_consulta remoto_sempre_running k
                           + 1000 * poll_interval_seconds config_exemplo)
    by (intros k; simpl; lia).
  assert (H3 : forall k, nao_terminal (resp_consulta remoto_sempre_running k) = true)
    by (intros k; reflexivity).
  repeat (split; [assumption|]).
  exact (proj1 (c3_timeout_por_tempo config_exemplo remoto_sempre_running 0 H1 H2 H3)).
Defined.

(** C4.  In every run of [aguardar_conclusao] that returns: no
    [RequestException] leaves the loop; every status query is issued at
    the clock reading [relogio], the entry reading [t0] plus what the
    earlier turns took, and at an elapsed time below the budget, so no
    attempt moves the reference point or stretches the budget; and, the
    poll interval not being negative, a query that met a network error is
    followed by the error log line and one sleep of the poll interval,
    after which the loop either queries again or reports the timeout. *)
Theorem c4_erro_de_rede_nao_aborta :
  forall (c : IBMRPAConfig) (w : remoto) (t0 : Z) (fuel : nat)
         (r : resultado desfecho) (st : estado),
    aguardar_conclusao c w fuel t0 = Some (r, st) ->
    (forall e, r = Levanta e -> eh_RequestException e = false)
    /\ (forall k t, In (EvConsulta k t) (traco st) ->
          t = relogio c w t0 k /\ t - t0 < orcamento c)
    /\ (0 <= poll_interval_seconds c ->
        forall k t e, In (EvConsulta k t) (traco st) ->
          resp_consulta w k = Levanta e -> eh_RequestException e = true ->
          exists antes depois,
            traco st = (antes ++ EvConsulta k t :: EvErroConsulta
                          :: EvSleep (poll_interval_seconds c) :: depois)%list
            /\ retomou k depois).
Proof.
  intros c w t0 fuel r st Hrun.
  destruct (fim_do_laco c w t0 fuel r st Hrun) as (Hq & He & _ & _ & Hnet).
  auto.
Qed.

Lemma c4_erro_de_rede_nao_aborta_witness :
  exists st,
    aguardar_conclusao config_exemplo remoto_falha_e_conclui 3 0
    = Some (Ret (desfecho_final SUCESSO corpo_concluido), st)
    /\ (forall k t, In (EvConsulta k t) (traco st) ->
          t = relogio config_exemplo remoto_falha_e_conclui 0 k
          /\ t - 0 < orcamento config_exemplo)
    /\ exists antes depois,
         traco st = (antes ++ EvConsulta 0 0 :: EvErroConsulta :: EvSleep 5 :: depois)%list
         /\ retomou 0 depois.
Proof.
  eexists. split; [reflexivity|].
  pose proof (c4_erro_de_rede_nao_aborta config_exemplo remoto_falha_e_conclui 0 3 _ _
                eq_refl) as (_ & Hq & Hnet).
  split; [exact Hq|].
  apply (Hnet ltac:(simpl; lia) 0%nat 0 RequestException); [|reflexivity|reflexivity].
  simpl. auto.
Defined.

Example int_de_float_95687 : int_de_float float_95687 = Ret 95687.
Proof. reflexivity. Qed.

(** C8.  When the queries before number [n] all let the loop go round
    again, the heads of the turns up to [n] fall inside the budget, and
    query [n] (the poll [n+1]) answers a status the mapper sends to a final
    status, then with any fuel above [n] the loop returns at that query:
    [n+1] queries and [n] sleeps in all, the query being the last event.
    A success status gives [SUCESSO] with the outputs and variables of the
    body; a failure status gives [ERRO] with the remote error message in
    the text and the whole body as output. *)
Theorem c8_terminal_retorna_na_consulta :
  forall (c : IBMRPAConfig) (w : remoto) (t0 : Z) (n : nat)
         (d : dict) (s : string) (rs : RPAStatus),
    0 <= poll_interval_seconds c ->
    (forall j, (j < n)%nat -> nao_terminal (resp_consulta w j) = true) ->
    (forall j, (j <= n)%nat -> relogio c w t0 j - t0 < orcamento c) ->
    resp_consulta w n = Ret (PDict d) ->
    get_ou d "status" (PStr "") = PStr s ->
    mapear s = Retorna rs ->
    forall fuel, (n < fuel)%nat ->
    exists msg out st,
      aguardar_conclusao c w fuel t0 = Some (Ret (rs, msg, out), st)
      /\ ((rs = SUCESSO
           /\ msg = TLit "Processo concluído com sucesso"
           /\ out = PDict [("outputs", ou (get_ou d "outputs" (PDict []))
                                          (get_ou d "output" (PDict [])));
                           ("variables", get_ou d "variables" (PList []))])
          \/ (rs = ERRO
              /\ msg = TCat (TLit "Processo falhou: ") (py_str (erro_remoto d))
              /\ out = PDict d))
      /\ consultas st = S n
      /\ conta eh_consulta (traco st) = S n
      /\ conta eh_sleep (traco st) = n
      /\ last (traco st) EvAvisoTimeout = EvConsulta n (relogio c w t0 n)
      /\ agora st = relogio c w t0 n + dur_consulta w n.
Proof.
  intros c w t0 n d s rs Hi Hnt Hb Hr Hs Hm fuel Hfuel.
  destruct (laco_avanca c w t0 Hi n (estado_inicial t0) (cabeca_inicial c w t0))
    as (stn & (Hclk & _ & Hsl & Hcq & _) & Hk & Hrun).
  { simpl. intros j Hj. split; [apply Hnt|apply Hb]; lia. }
  simpl in Hk. subst n.
  assert (Hb' : agora stn - t0 < orcamento c) by (rewrite Hclk; apply Hb; lia).
  assert (Hit := iteracao_final c w t0 stn d s rs Hb' Hr Hs Hm).
  destruct fuel as [|f]; [lia|].
  assert (Hf : S f = (consultas stn + S (f - consultas stn))%nat) by lia.
  pose (stf := {| agora := agora stn + dur_consulta w (consultas stn);
                  consultas := S (consultas stn);
                  traco := (traco stn ++ [EvConsulta (consultas stn) (agora stn)])%list |}).
  assert (Hfim : aguardar_conclusao c w (S f) t0 = Some (Ret (desfecho_final rs d), stf)).
  { unfold aguardar_conclusao. rewrite Hf.
    change {| agora := t0; consultas := 0; traco := [] |} with (estado_inicial t0).
    rewrite Hrun. simpl. rewrite Hit. reflexivity. }
  assert (Hcasos : rs = SUCESSO \/ rs = ERRO) by (eapply mapear_final; eassumption).
  exists (snd (fst (desfecho_final rs d))), (snd (desfecho_final rs d)), stf.
  split; [|split; [|split; [|split; [|split; [|split]]]]].
  - rewrite Hfim. destruct Hcasos as [-> | ->]; reflexivity.
  - destruct Hcasos as [-> | ->]; [left|right]; repeat split; reflexivity.
  - reflexivity.
  - simpl. rewrite conta_app, Hcq. unfold conta; simpl. lia.
  - simpl. rewrite conta_app, Hsl. unfold conta; simpl. lia.
  - simpl. rewrite last_last, Hclk. reflexivity.
  - simpl. rewrite Hclk. reflexivity.
Qed.

Lemma c8_terminal_retorna_na_consulta_witness :
  exists st,
    aguardar_conclusao config_exemplo remoto_falha_e_conclui 3 0
    = Some (Ret (SUCESSO, TLit "Processo concluído com sucesso",
                 PDict [("outputs", PDict [("status_autorizacao", PStr "Autorizado");
                                           ("nrGuiaRequisicao", PFloat float_95687)]);
                        ("variables", PList [])]), st)
    /\ consultas st = 3%nat
    /\ conta eh_consulta (traco st) = 3%nat
    /\ conta eh_sleep (traco st) = 2%nat
    /\ last (traco st) EvAvisoTimeout = EvConsulta 2 10400.
Proof.
  destruct (c8_terminal_retorna_na_consulta config_exemplo remoto_falha_e_conclui 0 2
              corpo_concluido "done" SUCESSO)
    with (fuel := 3%nat)
    as (msg & out & st & Hrun & Hcasos & Hk & Hq & Hs & Hl & _).
  - simpl; lia.
  - intros [|[|j]] Hj; [reflexivity|reflexivity|lia].
  - intros [|[|[|j]]] Hj; simpl; unfold orcamento; simpl; lia.
  - reflexivity.
  - reflexivity.
  - reflexivity.
  - lia.
  - exists st. destruct Hcasos as [(_ & -> & ->)|(Hrs & _)]; [|discriminate].
    repeat split; assumption.
Defined.

(* ===================================================================== *)
(** * The extractor *)
(* ===================================================================== *)

Lemma metodo_get_excecao v k p e : metodo_get v k p = Levanta e -> e = AttributeError.
Proof. destruct v; simpl; intros H; inversion H; reflexivity. Qed.

Lemma int_de_float_excecao f e :
  int_de_float f = Levanta e -> e = OverflowError \/ e = ValueError.
Proof. destruct f; simpl; intros H; inversion H; auto. Qed.

Lemma get_or_dict o a x :
  get_or (PDict o) a (Ret x) = Ret (ou (get_ou o a PNone) x).
Proof.
  unfold get_or, ou, get_ou. simpl.
  destruct (truthy _); reflexivity.
Qed.

(** On a dict the reads are the three [or] chains. *)
Lemma extrair_outputs_dict o :
  extrair_outputs (PDict o) =
  (guia <- (if eh_None (escolhe o aliases_guia) then Ret None
            else (t <- texto_guia (escolhe o aliases_guia) ;; Ret (Some t))) ;;
   Ret {| numero_autorizacao := escolhe o aliases_numero;
          status_autorizacao := escolhe o aliases_status;
          nr_guia_requisicao := guia |}).
Proof.
  unfold extrair_outputs.
  change (metodo_get (PDict o) "statusAutorizacao" PNone)
    with (Ret (get_ou o "statusAutorizacao" PNone)).
  change (metodo_get (PDict o) "guia_requisicao" PNone)
    with (Ret (get_ou o "guia_requisicao" PNone)).
  change (metodo_get (PDict o) "nr_autorizacao" PNone)
    with (Ret (get_ou o "nr_autorizacao" PNone)).
  rewrite !get_or_dict. reflexivity.
Qed.

Lemma extrair_outputs_excecao outputs e :
  extrair_outputs outputs = Levanta e ->
  e = AttributeError \/ e = OverflowError \/ e = ValueError.
Proof.
  destruct outputs as [ | | | | | |o]; try solve [simpl; intros H; inversion H; auto].
  rewrite extrair_outputs_dict.
  generalize (escolhe o aliases_guia) as raw. intros raw.
  destruct raw as [ | | |f| | | ]; simpl; try discriminate.
  destruct (int_de_float f) eqn:Hf; simpl; [discriminate|].
  intros H; inversion H; subst. right. now apply int_de_float_excecao in Hf.
Qed.

Lemma passo_variavel_excecao c var e :
  passo_variavel c var = Levanta e ->
  e = AttributeError \/ e = OverflowError \/ e = ValueError.
Proof.
  unfold passo_variavel.
  destruct var as [ | | | | | |dv]; try solve [simpl; intros H; inversion H; auto].
  simpl.
  repeat match goal with |- context [if ?b then _ else _] => destruct b end;
    try discriminate.
  destruct (match dict_get dv "value" with Some x => x | None => PNone end)
    as [ | | |f| | | ]; try discriminate.
  destruct (int_de_float f) eqn:Hf; simpl; [discriminate|].
  intros H; inversion H; subst. right. now apply int_de_float_excecao in Hf.
Qed.

Lemma percorrer_excecao vars : forall c e,
  percorrer_variaveis c vars = Levanta e ->
  e = AttributeError \/ e = OverflowError \/ e = ValueError.
Proof.
  induction vars as [|var r IH]; intros c e; simpl; [discriminate|].
  destruct (passo_variavel c var) as [c'|e'] eqn:Hp; simpl.
  - apply IH.
  - intros H; inversion H; subst. eapply passo_variavel_excecao; eassumption.
Qed.

(** On a non-empty dict the extractor reads the outputs, then walks the
    variables when they are a list. *)
Lemma extrair_dict d :
  d <> [] ->
  extrair (PDict d) =
  (c <- extrair_outputs (get_ou d "outputs" (PDict [])) ;;
   match get_ou d "variables" (PList []) with
   | PList vars => percorrer_variaveis c vars
   | _ => Ret c
   end).
Proof. destruct d; [congruence|reflexivity]. Qed.

(** The extractor raises nothing but what [except Exception] catches. *)
Lemma extrair_excecao out e :
  extrair out = Levanta e -> eh_Exception e = true.
Proof.
  intros H.
  assert (He : e = AttributeError \/ e = OverflowError \/ e = ValueError).
  { destruct out as [ | | | | | |d]; try solve [inversion H].
    destruct d as [|kv d]; [inversion H|].
    rewrite extrair_dict in H by discriminate.
    destruct (extrair_outputs _) as [cs|e'] eqn:Ho; simpl liga in H.
    - destruct (get_ou (kv :: d) "variables" (PList [])); try discriminate.
      eapply percorrer_excecao; eassumption.
    - inversion H; subst. eapply extrair_outputs_excecao; eassumption. }
  destruct He as [->|[->| ->]]; reflexivity.
Qed.

(** ** The [or] chains *)

Lemma escolhe_primeiro o pre : forall a pos,
  (forall b, In b pre -> truthy (get_ou o b PNone) = false) ->
  truthy (get_ou o a PNone) = true ->
  escolhe o (pre ++ a :: pos) = get_ou o a PNone.
Proof.
  induction pre as [|b pre IH]; intros a pos Hpre Ha.
  - simpl. destruct pos; [reflexivity|]. unfold ou. now rewrite Ha.
  - assert (Hb : truthy (get_ou o b PNone) = false) by (apply Hpre; now left).
    assert (IH' := IH a pos (fun x Hx => Hpre x (or_intror Hx)) Ha).
    change ((b :: pre) ++ a :: pos)%list with (b :: (pre ++ a :: pos))%list.
    destruct (pre ++ a :: pos)%list as [|x r] eqn:Hl.
    + destruct pre; discriminate.
    + change (escolhe o (b :: x :: r)) with (ou (get_ou o b PNone) (escolhe o (x :: r))).
      unfold ou. rewrite Hb. exact IH'.
Qed.

Lemma escolhe_ausente o aliases :
  (forall a, In a aliases -> dict_get o a = None) ->
  escolhe o aliases = PNone.
Proof.
  induction aliases as [|a r IH]; intros H; [reflexivity|].
  assert (Ha : get_ou o a PNone = PNone).
  { unfold get_ou. rewrite (H a) by now left. reflexivity. }
  destruct r as [|b r]; [exact Ha|].
  change (escolhe o (a :: b :: r)) with (ou (get_ou o a PNone) (escolhe o (b :: r))).
  rewrite Ha. unfold ou. simpl. apply IH. intros x Hx. apply H. now right.
Qed.

Lemma texto_guia_truthy v t :
  truthy v = true -> texto_guia v = Ret t -> texto_truthy t = true.
Proof.
  destruct v as [ |b|z|f|s|l|d]; simpl; try discriminate.
  - destruct b; intros _ H; inversion H; reflexivity.
  - intros _ H; inversion H; simpl. now rewrite decimal_nao_vazio.
  - destruct (int_de_float f); simpl; intros _ H; inversion H; simpl.
    now rewrite decimal_nao_vazio.
  - intros Hs H; inversion H; simpl. exact Hs.
  - intros _ H; inversion H; reflexivity.
  - intros _ H; inversion H; reflexivity.
Qed.

(** ** The walk over the variables *)

(** A field already truthy is not overwritten. *)
Lemma passo_preserva c var c' :
  passo_variavel c var = Ret c' ->
  (truthy (numero_autorizacao c) = true -> numero_autorizacao c' = numero_autorizacao c)
  /\ (truthy (status_autorizacao c) = true -> status_autorizacao c' = status_autorizacao c)
  /\ (guia_truthy (nr_guia_requisicao c) = true ->
      nr_guia_requisicao c' = nr_guia_requisicao c).
Proof.
  unfold passo_variavel.
  destruct var as [ | | | | | |dv]; try discriminate. simpl.
  destruct (truthy (numero_autorizacao c)) eqn:Hn;
    destruct (truthy (status_autorizacao c)) eqn:Hs;
    destruct (guia_truthy (nr_guia_requisicao c)) eqn:Hg;
    rewrite ?andb_false_r, ?andb_true_r; simpl;
    repeat match goal with |- context [if ?b then _ else _] => destruct b end;
    try (intros H; inversion H; subst; simpl; repeat split; congruence);
    destruct (match dict_get dv "value" with Some x => x | None => PNone end) as [ | | |f| | | ];
    try (intros H; inversion H; subst; simpl; repeat split; congruence);
    destruct (int_de_float f); simpl;
    intros H; inversion H; subst; simpl; repeat split; congruence.
Qed.

Lemma percorrer_preserva vars : forall c c',
  percorrer_variaveis c vars = Ret c' ->
  (truthy (numero_autorizacao c) = true -> numero_autorizacao c' = numero_autorizacao c)
  /\ (truthy (status_autorizacao c) = true -> status_autorizacao c' = status_autorizacao c)
  /\ (guia_truthy (nr_guia_requisicao c) = true ->
      nr_guia_requisicao c' = nr_guia_requisicao c).
Proof.
  induction vars as [|var r IH]; intros c c' H; simpl in H.
  - inversion H; subst. auto.
  - destruct (passo_variavel c var) as [c1|e] eqn:Hp; simpl in H; [|discriminate].
    destruct (passo_preserva _ _ _ Hp) as (H1 & H2 & H3).
    destruct (IH _ _ H) as (I1 & I2 & I3).
    repeat split; intros Ht.
    + rewrite <- (H1 Ht). apply I1. now rewrite (H1 Ht).
    + rewrite <- (H2 Ht). apply I2. now rewrite (H2 Ht).
    + rewrite <- (H3 Ht). apply I3. now rewrite (H3 Ht).
Qed.

(** An entry not named by an alias of [f] leaves [f] as it was. *)
Lemma passo_sem_alias f c var c' :
  (forall dv, var = PDict dv ->
     em_tupla (get_ou dv "name" (PStr "")) (aliases_de f) = false) ->
  passo_variavel c var = Ret c' ->
  valor_campo f c' = valor_campo f c.
Proof.
  unfold passo_variavel.
  destruct var as [ | | | | | |dv]; try discriminate. simpl.
  intros Hf. specialize (Hf dv eq_refl). unfold get_ou in Hf.
  destruct f; simpl in Hf; rewrite ?Hf; simpl;
    repeat match goal with |- context [if ?b then _ else _] => destruct b end;
    try (intros H; inversion H; subst; reflexivity);
    destruct (match dict_get dv "value" with Some x => x | None => PNone end) as [ | | |f| | | ];
    try (intros H; inversion H; subst; reflexivity);
    destruct (int_de_float f); simpl;
    intros H; inversion H; subst; reflexivity.
Qed.

Lemma percorrer_sem_alias f vars : forall c c',
  (forall dv, In (PDict dv) vars ->
     em_tupla (get_ou dv "name" (PStr "")) (aliases_de f) = false) ->
  percorrer_variaveis c vars = Ret c' ->
  valor_campo f c' = valor_campo f c.
Proof.
  induction vars as [|var r IH]; intros c c' Hf H; simpl in H.
  - inversion H; subst. reflexivity.
  - destruct (passo_variavel c var) as [c1|e] eqn:Hp; simpl in H; [|discriminate].
    rewrite (IH c1 c' (fun dv Hin => Hf dv (or_intror Hin)) H).
    apply (passo_sem_alias f c var c1); [|assumption].
    intros dv ->. apply Hf. now left.
Qed.

(** With the guide number already read, a walk over dicts returns. *)
Lemma percorrer_definido vars : forall c,
  guia_truthy (nr_guia_requisicao c) = true ->
  Forall eh_dict vars ->
  exists c', percorrer_variaveis c vars = Ret c'.
Proof.
  induction vars as [|var r IH]; intros c Hg Hd; simpl; [eauto|].
  inversion Hd as [|x l [dv Hx] Hr]; subst.
  assert (Hp : exists c1, passo_variavel c (PDict dv) = Ret c1).
  { unfold passo_variavel. simpl. rewrite Hg, andb_false_r.
    repeat match goal with |- context [if ?b then _ else _] => destruct b end; eauto. }
  destruct Hp as (c1 & Hp). rewrite Hp. simpl.
  apply IH; [|assumption].
  destruct (passo_preserva _ _ _ Hp) as (_ & _ & H3). now rewrite (H3 Hg).
Qed.

(* ===================================================================== *)
(** * The claims about the extractor *)
(* ===================================================================== *)

(** C5, as stated, fails: with an empty string under the first alias
    [nr_guia_requisicao] and a guide number under the second, the first
    alias present holds the empty string, yet the extractor returns the
    value of the second. *)
Lemma c5_contra_exemplo :
  primeiro_presente outputs_primeiro_vazio aliases_guia = Some (PStr "")
  /\ extrair (saida_rpa outputs_primeiro_vazio [])
     = Ret {| numero_autorizacao := PNone;
              status_autorizacao := PNone;
              nr_guia_requisicao := Some (TLit "95687") |}.
Proof. split; reflexivity. Qed.

(** Whenever the extractor returns on a payload whose outputs are a map,
    a field holds the value of the first alias, in the order of
    preference, whose value is truthy, whatever the later aliases and the
    variables list hold.  The guide number holds that value as text. *)
Lemma primeiro_truthy_lido :
  forall (f : campo) (d o : dict) (pre pos : list string) (a : string) (cs : campos),
    d <> [] ->
    get_ou d "outputs" (PDict []) = PDict o ->
    extrair (PDict d) = Ret cs ->
    aliases_de f = (pre ++ a :: pos)%list ->
    (forall b, In b pre -> truthy (get_ou o b PNone) = false) ->
    truthy (get_ou o a PNone) = true ->
    valor_lido f (get_ou o a PNone) cs.
Proof.
  intros f d o pre pos a cs Hd Ho Hex Hal Hpre Ha.
  rewrite extrair_dict, Ho, extrair_outputs_dict in Hex by assumption.
  assert (Hesc : escolhe o (aliases_de f) = get_ou o a PNone)
    by (rewrite Hal; now apply escolhe_primeiro).
  destruct (eh_None (escolhe o aliases_guia)) eqn:Hnone.
  - (* no guide number among the outputs *)
    simpl liga in Hex.
    assert (Hfim : exists c0, c0 = {| numero_autorizacao := escolhe o aliases_numero;
                                      status_autorizacao := escolhe o aliases_status;
                                      nr_guia_requisicao := None |}
                              /\ (c0 = cs \/ exists vars, percorrer_variaveis c0 vars = Ret cs)).
    { eexists. split; [reflexivity|].
      destruct (get_ou d "variables" (PList [])); inversion Hex; eauto. }
    destruct Hfim as (c0 & Hc0 & Hcs).
    destruct f; cbn [aliases_de valor_lido] in Hesc |- *.
    + destruct Hcs as [<-|(vars & Hw)]; [subst c0; exact Hesc|].
      destruct (percorrer_preserva _ _ _ Hw) as (H1 & _).
      subst c0. cbn [numero_autorizacao status_autorizacao nr_guia_requisicao] in H1. rewrite Hesc in H1. exact (H1 Ha).
    + destruct Hcs as [<-|(vars & Hw)]; [subst c0; exact Hesc|].
      destruct (percorrer_preserva _ _ _ Hw) as (_ & H2 & _).
      subst c0. cbn [numero_autorizacao status_autorizacao nr_guia_requisicao] in H2. rewrite Hesc in H2. exact (H2 Ha).
    + rewrite Hesc in Hnone. destruct (get_ou o a PNone); discriminate.
  - destruct (texto_guia (escolhe o aliases_guia)) as [t|e] eqn:Ht; simpl liga in Hex;
      [|discriminate].
    assert (Hfim : exists c0, c0 = {| numero_autorizacao := escolhe o aliases_numero;
                                      status_autorizacao := escolhe o aliases_status;
                                      nr_guia_requisicao := Some t |}
                              /\ (c0 = cs \/ exists vars, percorrer_variaveis c0 vars = Ret cs)).
    { eexists. split; [reflexivity|].
      destruct (get_ou d "variables" (PList [])); inversion Hex; eauto. }
    destruct Hfim as (c0 & Hc0 & Hcs).
    destruct f; cbn [aliases_de valor_lido] in Hesc |- *.
    + destruct Hcs as [<-|(vars & Hw)]; [subst c0; exact Hesc|].
      destruct (percorrer_preserva _ _ _ Hw) as (H1 & _).
      subst c0. cbn [numero_autorizacao status_autorizacao nr_guia_requisicao] in H1. rewrite Hesc in H1. exact (H1 Ha).
    + destruct Hcs as [<-|(vars & Hw)]; [subst c0; exact Hesc|].
      destruct (percorrer_preserva _ _ _ Hw) as (_ & H2 & _).
      subst c0. cbn [numero_autorizacao status_autorizacao nr_guia_requisicao] in H2. rewrite Hesc in H2. exact (H2 Ha).
    + rewrite Hesc in Ht. exists t. split; [assumption|].
      destruct Hcs as [<-|(vars & Hw)]; [subst c0; reflexivity|].
      destruct (percorrer_preserva _ _ _ Hw) as (_ & _ & H3).
      subst c0. cbn [numero_autorizacao status_autorizacao nr_guia_requisicao] in H3. rewrite H3; [reflexivity|].
      eapply texto_guia_truthy; eassumption.
Qed.

(** The [or] chain over aliases none of which is truthy ends with the
    value under the last one. *)
Lemma escolhe_ultimo o aliases :
  aliases <> [] ->
  (forall b, In b aliases -> truthy (get_ou o b PNone) = false) ->
  escolhe o aliases = get_ou o (List.last aliases "") PNone.
Proof.
  induction aliases as [|a r IH]; intros Hne Hf; [congruence|].
  destruct r as [|b r]; [reflexivity|].
  change (escolhe o (a :: b :: r)) with (ou (get_ou o a PNone) (escolhe o (b :: r))).
  change (List.last (a :: b :: r) "") with (List.last (b :: r) "").
  unfold ou. rewrite (Hf a) by now left.
  apply IH; [discriminate|]. intros x Hx. apply Hf. now right.
Qed.

Lemma saida_de_inj v v' : saida_de v = saida_de v' -> v = v'.
Proof. destruct v, v'; simpl; congruence. Qed.

Lemma saida_texto_inj g g' : saida_texto g = saida_texto g' -> g = g'.
Proof. destruct g, g'; simpl; congruence. Qed.

(** What the reads from the outputs leave in each field. *)
Lemma extrair_outputs_final f o c0 :
  extrair_outputs (PDict o) = Ret c0 ->
  valor_final f (escolhe o (aliases_de f)) c0.
Proof.
  rewrite extrair_outputs_dict.
  destruct (eh_None (escolhe o aliases_guia)) eqn:Hn; cbn [liga].
  - intros H. inversion H; subst.
    destruct f; cbn [valor_final aliases_de numero_autorizacao status_autorizacao
                       nr_guia_requisicao]; try reflexivity.
    now rewrite Hn.
  - destruct (texto_guia (escolhe o aliases_guia)) as [t|e] eqn:Ht; cbn [liga];
      [|discriminate].
    intros H. inversion H; subst.
    destruct f; cbn [valor_final aliases_de numero_autorizacao status_autorizacao
                       nr_guia_requisicao]; try reflexivity.
    rewrite Hn. eauto.
Qed.

(** A field that keeps its reported value keeps what it holds. *)
Lemma valor_final_campo f v c c' :
  valor_campo f c' = valor_campo f c -> valor_final f v c -> valor_final f v c'.
Proof.
  destruct f; cbn [valor_campo valor_final]; intros Heq Hv.
  - apply saida_de_inj in Heq. congruence.
  - apply saida_de_inj in Heq. congruence.
  - apply saida_texto_inj in Heq. rewrite Heq. exact Hv.
Qed.

(** With no alias of the field truthy and no variable named by one, the
    field ends as the reads from the outputs left it: with the value
    under the last alias. *)
Lemma sem_truthy_ultimo f d o cs :
  d <> [] ->
  get_ou d "outputs" (PDict []) = PDict o ->
  extrair (PDict d) = Ret cs ->
  (forall b, In b (aliases_de f) -> truthy (get_ou o b PNone) = false) ->
  (forall l, get_ou d "variables" (PList []) = PList l ->
     forall dv, In (PDict dv) l ->
       em_tupla (get_ou dv "name" (PStr "")) (aliases_de f) = false) ->
  valor_final f (get_ou o (ultimo_alias f) PNone) cs.
Proof.
  intros Hd Ho Hex Hf Hv.
  rewrite extrair_dict, Ho in Hex by assumption.
  destruct (extrair_outputs (PDict o)) as [c0|e] eqn:Hout; cbn [liga] in Hex;
    [|discriminate].
  assert (H0 : valor_final f (get_ou o (ultimo_alias f) PNone) c0).
  { unfold ultimo_alias. rewrite <- escolhe_ultimo.
    - now apply extrair_outputs_final.
    - destruct f; discriminate.
    - assumption. }
  destruct (get_ou d "variables" (PList [])) as [ | | | | |l| ] eqn:Hvars;
    try (inversion Hex; subst; exact H0).
  apply (valor_final_campo f _ c0); [|exact H0].
  eapply percorrer_sem_alias; [|eassumption].
  exact (Hv l eq_refl).
Qed.

(** C5, amended.  Whenever the extractor returns on a payload whose
    outputs are a map: each field holds the value of the first alias, in
    the order of preference, whose value is truthy, whatever the later
    aliases and the variables list hold; and when no alias of the field
    has a truthy value, the field holds the value under the last alias of
    the order ([None] when that key is absent), provided no entry of the
    variables list is named by an alias of the field.  So a falsy value
    is passed over like an absent key under every alias but the last,
    where it is kept.  The guide number holds its value as text. *)
Theorem c5_primeiro_alias_truthy :
  forall (f : campo) (d o : dict) (cs : campos),
    d <> [] ->
    get_ou d "outputs" (PDict []) = PDict o ->
    extrair (PDict d) = Ret cs ->
    (forall (pre pos : list string) (a : string),
        aliases_de f = (pre ++ a :: pos)%list ->
        (forall b, In b pre -> truthy (get_ou o b PNone) = false) ->
        truthy (get_ou o a PNone) = true ->
        valor_lido f (get_ou o a PNone) cs)
    /\ ((forall b, In b (aliases_de f) -> truthy (get_ou o b PNone) = false) ->
        (forall l, get_ou d "variables" (PList []) = PList l ->
           forall dv, In (PDict dv) l ->
             em_tupla (get_ou dv "name" (PStr "")) (aliases_de f) = false) ->
        valor_final f (get_ou o (ultimo_alias f) PNone) cs).
Proof.
  intros f d o cs Hd Ho Hex. split.
  - intros pre pos a Hal Hpre Ha. eapply primeiro_truthy_lido; eassumption.
  - intros Hf Hv. now apply (sem_truthy_ultimo f d o cs).
Qed.

Lemma c5_primeiro_alias_truthy_witness :
  valor_lido CGuia (PFloat float_95687)
    {| numero_autorizacao := PNone;
       status_autorizacao := PNone;
       nr_guia_requisicao := Some (TLit "95687") |}
  /\ extrair (saida_rpa outputs_guia_zero_ultimo []) =
     Ret {| numero_autorizacao := PNone;
            status_autorizacao := PNone;
            nr_guia_requisicao := Some (TLit "0") |}
  /\ valor_final CGuia (PFloat (S754_zero false))
       {| numero_autorizacao := PNone;
          status_autorizacao := PNone;
          nr_guia_requisicao := Some (TLit "0") |}.
Proof.
  assert (H1 : [("outputs", PDict outputs_guia_float); ("variables", PList [])] <> [])
    by discriminate.
  assert (H2 : get_ou [("outputs", PDict outputs_guia_float); ("variables", PList [])]
                 "outputs" (PDict []) = PDict outputs_guia_float) by reflexivity.
  assert (H3 : extrair (saida_rpa outputs_guia_float []) =
               Ret {| numero_autorizacao := PNone;
                      status_autorizacao := PNone;
                      nr_guia_requisicao := Some (TLit "95687") |})
    by (vm_compute; reflexivity).
  assert (K1 : [("outputs", PDict outputs_guia_zero_ultimo); ("variables", PList [])] <> [])
    by discriminate.
  assert (K2 : get_ou [("outputs", PDict outputs_guia_zero_ultimo); ("variables", PList [])]
                 "outputs" (PDict []) = PDict outputs_guia_zero_ultimo) by reflexivity.
  assert (K3 : extrair (saida_rpa outputs_guia_zero_ultimo []) =
               Ret {| numero_autorizacao := PNone;
                      status_autorizacao := PNone;
                      nr_guia_requisicao := Some (TLit "0") |})
    by (vm_compute; reflexivity).
  split; [|split; [exact K3|]].
  - apply (proj1 (c5_primeiro_alias_truthy CGuia _ outputs_guia_float _ H1 H2 H3)
             ["nr_guia_requisicao"] ["guia_requisicao"] "nrGuiaRequisicao").
    + reflexivity.
    + intros b [<-|[]]. reflexivity.
    + reflexivity.
  - apply (proj2 (c5_primeiro_alias_truthy CGuia _ outputs_guia_zero_ultimo _ K1 K2 K3)).
    + intros b [<-|[<-|[<-|[]]]]; reflexivity.
    + intros l Hl. inversion Hl; subst. intros dv [].
Defined.

(** C6, as stated, fails: the float zero under [nrGuiaRequisicao], with no
    [nr_guia_requisicao] key, is falsy for the [or] chain, and the
    extractor yields [None] for the guide number instead of a text. *)
Lemma c6_contra_exemplo :
  dict_get outputs_guia_zero "nr_guia_requisicao" = None
  /\ dict_get outputs_guia_zero "nrGuiaRequisicao" = Some (PFloat (S754_zero false))
  /\ extrair (saida_rpa outputs_guia_zero [])
     = Ret {| numero_autorizacao := PNone;
              status_autorizacao := PNone;
              nr_guia_requisicao := None |}.
Proof. repeat split; reflexivity. Qed.

(** C6, amended.  For every payload whose outputs map has no
    [nr_guia_requisicao] key and holds a finite float other than zero
    under [nrGuiaRequisicao], and whose variables, when a list, hold only
    dicts, the extractor returns and the guide number is the decimal text
    of the float truncated to an integer, a text without a decimal
    point. *)
Theorem c6_float_para_inteiro :
  forall (d o : dict) (sgn : bool) (m : positive) (e : Z),
    d <> [] ->
    get_ou d "outputs" (PDict []) = PDict o ->
    dict_get o "nr_guia_requisicao" = None ->
    dict_get o "nrGuiaRequisicao" = Some (PFloat (S754_finite sgn m e)) ->
    (forall l, get_ou d "variables" (PList []) = PList l -> Forall eh_dict l) ->
    exists cs z,
      extrair (PDict d) = Ret cs
      /\ int_de_float (S754_finite sgn m e) = Ret z
      /\ nr_guia_requisicao cs = Some (TLit (decimal z))
      /\ contem "." (decimal z) = false.
Proof.
  intros d o sgn m e Hd Ho Hk1 Hk2 Hvars.
  assert (Hesc : escolhe o aliases_guia = PFloat (S754_finite sgn m e)).
  { change aliases_guia
      with (["nr_guia_requisicao"] ++ "nrGuiaRequisicao" :: ["guia_requisicao"])%list.
    rewrite escolhe_primeiro.
    - unfold get_ou. now rewrite Hk2.
    - intros b [<-|[]]. unfold get_ou. now rewrite Hk1.
    - unfold get_ou. now rewrite Hk2. }
  destruct (int_de_float (S754_finite sgn m e)) as [z|ex] eqn:Hint; [|discriminate].
  rewrite extrair_dict, Ho, extrair_outputs_dict, Hesc by assumption.
  cbn [eh_None texto_guia]. rewrite Hint. cbn [liga].
  set (c0 := {| numero_autorizacao := escolhe o aliases_numero;
                status_autorizacao := escolhe o aliases_status;
                nr_guia_requisicao := Some (TLit (decimal z)) |}).
  assert (Hg : guia_truthy (nr_guia_requisicao c0) = true)
    by (simpl; now rewrite decimal_nao_vazio).
  destruct (get_ou d "variables" (PList [])) as [ | | | | |l| ] eqn:Hv;
    try solve [exists c0, z; repeat split; auto using decimal_sem_ponto].
  destruct (percorrer_definido l c0 Hg (Hvars l eq_refl)) as (c' & Hw).
  destruct (percorrer_preserva _ _ _ Hw) as (_ & _ & H3).
  exists c', z. split; [assumption|]. split; [reflexivity|].
  split; [now rewrite (H3 Hg)|apply decimal_sem_ponto].
Qed.

Lemma c6_float_para_inteiro_witness :
  exists cs,
    extrair (saida_rpa outputs_guia_float
               [PDict [("name", PStr "guia_requisicao"); ("value", PFloat float_95687)]])
    = Ret cs
    /\ nr_guia_requisicao cs = Some (TLit "95687").
Proof.
  destruct (c6_float_para_inteiro
              [("outputs", PDict outputs_guia_float);
               ("variables",
                PList [PDict [("name", PStr "guia_requisicao");
                              ("value", PFloat float_95687)]])]
              outputs_guia_float false 6575560570437632 (-36))
    as (cs & z & Hex & Hz & Hg & _).
  - discriminate.
  - reflexivity.
  - reflexivity.
  - reflexivity.
  - intros l Hl. inversion Hl; subst. repeat constructor. eexists; reflexivity.
  - exists cs. split; [exact Hex|].
    rewrite Hg. inversion Hz; subst. reflexivity.
Defined.

(* ===================================================================== *)
(** * The handler of the RPA task *)
(* ===================================================================== *)

(** What the handler reports once the poller has returned a tuple. *)
Lemma handle_apos_espera c w fuel t0 task p id rs msg out st :
  process_id c <> "" ->
  montar_payload (get_variables task) = Ret p ->
  iniciar_processo w p = Ret id ->
  aguardar_conclusao c w fuel t0 = Some (Ret (rs, msg, out), st) ->
  handle_executar_rpa c w fuel t0 task =
  Some (Ret (Success
               match extrair out with
               | Ret cs => variaveis_sucesso rs id msg (agora st) cs
               | Levanta e => variaveis_erro_tecnico e (agora st)
               end), st).
Proof.
  intros Hp Hm Hi Ha. unfold handle_executar_rpa, bloco_try.
  apply String.eqb_neq in Hp. rewrite Hp, Hm, Hi, Ha.
  destruct (extrair out) as [cs|e] eqn:He; [reflexivity|].
  now rewrite (extrair_excecao _ _ He).
Qed.


(** A field none of whose aliases the payload holds is read as [None]. *)
Lemma extrair_sem_alias f out cs :
  sem_alias f out -> extrair out = Ret cs -> valor_campo f cs = SNone.
Proof.
  intros Hs Hex.
  destruct out as [ | | | | | |d];
    try (inversion Hex; subst; destruct f; reflexivity).
  destruct d as [|kv d]; [inversion Hex; subst; destruct f; reflexivity|].
  destruct Hs as (Ho & Hv).
  rewrite extrair_dict in Hex by discriminate.
  destruct (get_ou (kv :: d) "outputs" (PDict [])) as [ | | | | | |o] eqn:Houts;
    try discriminate.
  specialize (Ho o eq_refl).
  rewrite extrair_outputs_dict in Hex.
  assert (Hesc : escolhe o (aliases_de f) = PNone) by (now apply escolhe_ausente).
  destruct (if eh_None (escolhe o aliases_guia) then Ret None
            else t <- texto_guia (escolhe o aliases_guia);; Ret (Some t))
    as [g|e] eqn:Hg; cbn [liga] in Hex; [|discriminate].
  assert (H0 : valor_campo f {| numero_autorizacao := escolhe o aliases_numero;
                                status_autorizacao := escolhe o aliases_status;
                                nr_guia_requisicao := g |} = SNone).
  { destruct f; cbn [aliases_de valor_campo numero_autorizacao status_autorizacao
                       nr_guia_requisicao] in *.
    - now rewrite Hesc.
    - now rewrite Hesc.
    - rewrite Hesc in Hg. inversion Hg; subst. reflexivity. }
  destruct (get_ou (kv :: d) "variables" (PList [])) as [ | | | | |l| ] eqn:Hvars;
    try (inversion Hex; subst; exact H0).
  rewrite <- H0. eapply percorrer_sem_alias; [|eassumption].
  exact (Hv l eq_refl).
Qed.

(** ** When the extraction returns *)

Lemma escolhe_finito o aliases :
  forallb (fun a => finito (get_ou o a PNone)) aliases = true ->
  finito (escolhe o aliases) = true.
Proof.
  induction aliases as [|a r IH]; intros H; [reflexivity|].
  cbn [forallb] in H. apply andb_prop in H. destruct H as [Ha Hr].
  destruct r as [|b r]; [exact Ha|].
  change (escolhe o (a :: b :: r)) with (ou (get_ou o a PNone) (escolhe o (b :: r))).
  unfold ou. destruct (truthy (get_ou o a PNone)); [exact Ha|now apply IH].
Qed.

Lemma texto_guia_definido v : finito v = true -> exists t, texto_guia v = Ret t.
Proof.
  destruct v as [ |b|z|f|s|l|d]; simpl; eauto.
  destruct (int_de_float f); [simpl; eauto|discriminate].
Qed.

Lemma extrair_outputs_definido o :
  forallb (fun a => finito (get_ou o a PNone)) aliases_guia = true ->
  exists c0, extrair_outputs (PDict o) = Ret c0.
Proof.
  intros H. rewrite extrair_outputs_dict.
  destruct (eh_None (escolhe o aliases_guia)); cbn [liga]; [eauto|].
  destruct (texto_guia_definido _ (escolhe_finito o aliases_guia H)) as (t & ->).
  cbn [liga]. eauto.
Qed.

Lemma passo_definido c var :
  variavel_bem_formada var = true -> exists c', passo_variavel c var = Ret c'.
Proof.
  destruct var as [ | | | | | |dv]; try discriminate.
  unfold variavel_bem_formada, passo_variavel, get_ou. simpl. intros Hf.
  repeat match goal with |- context [if ?b then _ else _] => destruct b end; eauto.
  destruct (match dict_get dv "value" with Some x => x | None => PNone end)
    as [ | | |f| | | ]; eauto.
  simpl in Hf. destruct (int_de_float f); [simpl; eauto|discriminate].
Qed.

Lemma percorrer_bem_formado vars : forall c,
  forallb variavel_bem_formada vars = true ->
  exists c', percorrer_variaveis c vars = Ret c'.
Proof.
  induction vars as [|var r IH]; intros c H; simpl; [eauto|].
  cbn [forallb] in H. apply andb_prop in H. destruct H as [Hv Hr].
  destruct (passo_definido c var Hv) as (c1 & ->). simpl. now apply IH.
Qed.

(** On a payload shaped as the remote protocol gives it, the extractor
    returns. *)
Lemma extrair_definido out : bem_formado out = true -> exists cs, extrair out = Ret cs.
Proof.
  destruct out as [ | | | | | |d]; try solve [simpl; eauto].
  destruct d as [|kv d]; [simpl; eauto|].
  intros H. rewrite extrair_dict by discriminate.
  unfold bem_formado in H. apply andb_prop in H. destruct H as [Ho Hv].
  destruct (get_ou (kv :: d) "outputs" (PDict [])) as [ | | | | | |o]; try discriminate.
  destruct (extrair_outputs_definido o Ho) as (c0 & ->). cbn [liga].
  destruct (get_ou (kv :: d) "variables" (PList [])) as [ | | | | |l| ]; eauto.
  now apply percorrer_bem_formado.
Qed.

(** C7, as stated, fails: a result none of whose entries is an alias of
    any field, but whose variables list holds a string instead of a dict,
    makes the extraction raise [AttributeError]; the handler then reports
    the technical error. *)
Lemma c7_contra_exemplo :
  (forall f, sem_alias f saida_malformada)
  /\ extrair saida_malformada = Levanta AttributeError
  /\ aguardar_conclusao config_exemplo remoto_variaveis_malformadas 1 0 =
     Some (Ret (SUCESSO, TLit "Processo concluído com sucesso", saida_malformada),
           {| agora := 200; consultas := 1; traco := [EvConsulta 0 0] |})
  /\ handle_executar_rpa config_exemplo remoto_variaveis_malformadas 1 0 tarefa_exemplo =
     Some (Ret (Success (variaveis_erro_tecnico AttributeError 200)),
           {| agora := 200; consultas := 1; traco := [EvConsulta 0 0] |}).
Proof.
  split; [|split; [|split]]; try (vm_compute; reflexivity).
  intros f. split.
  - intros o Ho. inversion Ho; subst. intros a _. reflexivity.
  - intros l Hl. inversion Hl; subst. intros dv [H|[]]. discriminate.
Qed.

(** C7, amended.  For a payload that holds no alias of a field, neither
    as a key of its outputs map nor as the name of an entry of its
    variables list: when the payload is shaped as the remote protocol
    gives it (outputs a map, variables a list of dicts, no infinite or
    NaN float to convert), the extractor returns, with [None] for the
    field, and the handler reports the poller's status with [None] for
    the field: not an empty string, and no exception.  On any payload
    without an alias, whenever the extractor returns the field is
    [None], and the handler's result holds [None] for the field also when
    the extraction raises. *)
Theorem c7_campo_ausente_none :
  forall (f : campo) (out : pyval),
    sem_alias f out ->
    (bem_formado out = true ->
     exists cs, extrair out = Ret cs /\ valor_campo f cs = SNone)
    /\ (forall cs, extrair out = Ret cs -> valor_campo f cs = SNone)
    /\ (forall (c : IBMRPAConfig) (w : remoto) (fuel : nat) (t0 : Z) (task : ExternalTask)
               (p : dict) (id : pyval) (rs : RPAStatus) (msg : texto) (st : estado),
          process_id c <> "" ->
          montar_payload (get_variables task) = Ret p ->
          iniciar_processo w p = Ret id ->
          aguardar_conclusao c w fuel t0 = Some (Ret (rs, msg, out), st) ->
          exists vars,
            handle_executar_rpa c w fuel t0 task = Some (Ret (Success vars), st)
            /\ variavel vars (nome_campo f) = Some SNone
            /\ (bem_formado out = true ->
                variavel vars "rpa_status" = Some (STexto (TLit (valor rs))))).
Proof.
  intros f out Hs.
  split; [|split].
  - intros Hb. destruct (extrair_definido out Hb) as (cs & Hex).
    exists cs. split; [assumption|]. now apply (extrair_sem_alias f out).
  - intros cs. now apply extrair_sem_alias.
  - intros c w fuel t0 task p id rs msg st Hp Hm Hi Ha.
    rewrite (handle_apos_espera c w fuel t0 task p id rs msg out st Hp Hm Hi Ha).
    eexists. split; [reflexivity|].
    destruct (extrair out) as [cs|e] eqn:Hex.
    + split; [|reflexivity].
      rewrite <- (extrair_sem_alias f out cs Hs Hex). destruct f; reflexivity.
    + split; [destruct f; reflexivity|].
      intros Hb. destruct (extrair_definido out Hb) as (cs & Hcs). congruence.
Qed.

Lemma c7_campo_ausente_none_witness :
  sem_alias CNumero (saida_rpa outputs_guia_float [])
  /\ bem_formado (saida_rpa outputs_guia_float []) = true
  /\ exists cs,
       extrair (saida_rpa outputs_guia_float []) = Ret cs
       /\ valor_campo CNumero cs = SNone.
Proof.
  assert (Hs : sem_alias CNumero (saida_rpa outputs_guia_float [])).
  { split.
    - intros o Ho. inversion Ho; subst. intros a [<-|[<-|[<-|[]]]]; reflexivity.
    - intros l Hl. inversion Hl; subst. intros dv []. }
  assert (Hb : bem_formado (saida_rpa outputs_guia_float []) = true)
    by (vm_compute; reflexivity).
  split; [exact Hs|]. split; [exact Hb|].
  exact (proj1 (c7_campo_ausente_none CNumero (saida_rpa outputs_guia_float []) Hs) Hb).
Defined.

(* ===================================================================== *)
(** * The claims about the outcome of the RPA handler *)
(* ===================================================================== *)



(** C1, at a failing input.  With the process configured, a task whose
    [convenio_codigo] is the string [abc] makes [int()] raise [ValueError]
    while the payload is built, before the [try] block: the exception
    leaves [handle_executar_rpa] and no task result is returned, whatever
    the remote side. *)
Theorem c1_excecao_escapa_do_handler :
  forall (w : remoto) (fuel : nat) (t0 : Z),
    handle_executar_rpa config_exemplo w fuel t0 tarefa_convenio_invalido
    = Some (Levanta ValueError, estado_inicial t0).
Proof. intros w fuel t0. reflexivity. Qed.

(** Past the payload, an exception leaves the handler only if
    [except Exception] does not catch it. *)
Lemma handle_escapa_so_fora_do_try c w fuel t0 task p e st :
  montar_payload (get_variables task) = Ret p ->
  handle_executar_rpa c w fuel t0 task = Some (Levanta e, st) ->
  eh_Exception e = false.
Proof.
  intros Hm. unfold handle_executar_rpa. rewrite Hm.
  destruct (process_id c =? "")%string; [discriminate|].
  destruct (bloco_try c w fuel t0 p) as [[[r|e1] s1]|]; try discriminate.
  destruct (eh_Exception e1) eqn:He; [discriminate|].
  intros H; inversion H; subst. assumption.
Qed.

(* ===================================================================== *)
(** * The status mappers *)
(* ===================================================================== *)

Lemma tabela_get_ausente t k padrao :
  (forall v, ~ In (k, v) t) -> tabela_get t k padrao = padrao.
Proof.
  induction t as [|[k' v'] r IH]; intros H; simpl; [reflexivity|].
  destruct (String.eqb_spec k' k) as [->|Hne].
  - exfalso. apply (H v'). now left.
  - apply IH. intros v Hin. apply (H v). now right.
Qed.

Lemma classificar_sucesso u :
  classificar u = Retorna SUCESSO <-> In u ["DONE"; "COMPLETED"].
Proof.
  unfold classificar. split.
  - destruct (existsb (String.eqb u) ["DONE"; "COMPLETED"]) eqn:E1.
    + intros _. apply existsb_exists in E1. destruct E1 as (x & Hin & Heq).
      apply String.eqb_eq in Heq. now subst.
    + repeat match goal with |- context [if ?b then _ else _] => destruct b end;
        discriminate.
  - simpl. intros [<-|[<-|[]]]; reflexivity.
Qed.

Lemma classificar_erro u :
  classificar u = Retorna ERRO <-> In u ["FAILED"; "CANCELED"; "ERROR"].
Proof.
  unfold classificar. split.
  - destruct (existsb (String.eqb u) ["DONE"; "COMPLETED"]); [discriminate|].
    destruct (existsb (String.eqb u) ["FAILED"; "CANCELED"; "ERROR"]) eqn:E2.
    + intros _. apply existsb_exists in E2. destruct E2 as (x & Hin & Heq).
      apply String.eqb_eq in Heq. now subst.
    + destruct (existsb (String.eqb u) ["NEW"; "QUEUED"; "PROCESSING"; "RUNNING"; "PENDING"]);
        intros H; discriminate H.
  - simpl. intros [<-|[<-|[<-|[]]]]; reflexivity.
Qed.

Lemma classificar_continua u :
  ~ In u ["DONE"; "COMPLETED"; "FAILED"; "CANCELED"; "ERROR"] ->
  classificar u = Aguarda \/ classificar u = AguardaDesconhecido.
Proof.
  intros Hn.
  destruct (classificar u) as [[]| |] eqn:Hc; auto; exfalso; apply Hn.
  - apply classificar_sucesso in Hc. simpl in *. tauto.
  - apply classificar_erro in Hc. simpl in *. tauto.
  - unfold classificar in Hc.
    repeat match type of Hc with context [if ?b then _ else _] => destruct b end;
      discriminate.
  - unfold classificar in Hc.
    repeat match type of Hc with context [if ?b then _ else _] => destruct b end;
      discriminate.
Qed.

(** C2, as stated, fails on the stage mapper: [AUTORIZADO] and
    [autorizado] differ only in letter case, yet the first maps to stage 2
    and the second to the default 6. *)
Lemma c2_contra_exemplo :
  so_caixa "AUTORIZADO" "autorizado"
  /\ obter_estagio_por_status (PStr "AUTORIZADO") = Ret 2
  /\ obter_estagio_por_status (PStr "autorizado") = Ret 6.
Proof.
  split; [|split; reflexivity].
  repeat (apply so_caixa_letra; [right; left; cbv; lia|]).
  apply so_caixa_vazio.
Qed.

(** C2, amended.  The poller's mapper upper-cases the raw status: it
    gives [SUCESSO] exactly on DONE and COMPLETED, [ERRO] exactly on
    FAILED, CANCELED and ERROR, and keeps polling on every other string;
    two strings that differ only in letter case map alike.  The stage
    mapper looks the stripped string up as it is: each key of
    [STATUS_PARA_ESTAGIO] gives its stage, any string whose stripped form
    is not a key gives 6, and the table holding the capitalised and the
    upper-case spellings only, [AUTORIZADO] gives 2 and [autorizado] 6. *)
Theorem c2_mapeadores_de_status :
  (forall s, mapear s = Retorna SUCESSO <-> In (upper s) ["DONE"; "COMPLETED"])
  /\ (forall s, mapear s = Retorna ERRO <-> In (upper s) ["FAILED"; "CANCELED"; "ERROR"])
  /\ (forall s, ~ In (upper s) ["DONE"; "COMPLETED"; "FAILED"; "CANCELED"; "ERROR"] ->
        mapear s = Aguarda \/ mapear s = AguardaDesconhecido)
  /\ (forall s1 s2, so_caixa s1 s2 -> mapear s1 = mapear s2)
  /\ (forall k v, In (k, v) STATUS_PARA_ESTAGIO ->
        obter_estagio_por_status (PStr k) = Ret v)
  /\ (forall s, (forall v, ~ In (strip s, v) STATUS_PARA_ESTAGIO) ->
        obter_estagio_por_status (PStr s) = Ret 6)
  /\ obter_estagio_por_status (PStr "AUTORIZADO") = Ret 2
  /\ obter_estagio_por_status (PStr "autorizado") = Ret 6.
Proof.
  split; [|split; [|split; [|split; [|split; [|split; [|split]]]]]].
  - intros s. apply classificar_sucesso.
  - intros s. apply classificar_erro.
  - intros s. apply classificar_continua.
  - intros s1 s2 H. unfold mapear. now rewrite (so_caixa_upper s1 s2 H).
  - intros k v Hin. simpl in Hin.
    repeat (destruct Hin as [Hin|Hin]; [inversion Hin; subst; reflexivity|]).
    contradiction.
  - intros s Hs. unfold obter_estagio_por_status.
    destruct (negb (truthy (PStr s))); [reflexivity|].
    now rewrite tabela_get_ausente.
  - reflexivity.
  - reflexivity.
Qed.

(* ===================================================================== *)
(** * The Oracle repository and its handler *)
(* ===================================================================== *)
Section Repositorio.
Variable drv : driver.

Lemma preserva_ret {A} (a : A) : preserva (ret a).
Proof. intros s Hs. exact Hs. Qed.

Lemma preserva_lift {A} (r : resultado A) : preserva (lift r).
Proof. intros s Hs. exact Hs. Qed.

Lemma preserva_le_connection : preserva le_connection.
Proof. intros s Hs. exact Hs. Qed.

Lemma preserva_bind {A B} (m : M A) (k : A -> M B) :
  preserva m -> (forall a, preserva (k a)) -> preserva (bind m k).
Proof.
  intros Hm Hk s Hs. unfold bind. specialize (Hm s Hs).
  destruct (m s) as [[a|e] s1]; simpl in *; [now apply Hk|assumption].
Qed.

Lemma preserva_tenta {A} (m : M A) (h : excecao -> M A) :
  preserva m -> (forall e, preserva (h e)) -> preserva (tenta m h).
Proof.
  intros Hm Hh s Hs. unfold tenta. specialize (Hm s Hs).
  destruct (m s) as [[a|e] s1]; simpl in *; [assumption|].
  destruct (eh_Exception e); [now apply Hh|assumption].
Qed.

Lemma preserva_chama c :
  c <> Connect -> c <> Close -> preserva (chama drv c).
Proof.
  intros Hc1 Hc2 s (Ha & Hcl & Hco). unfold chama.
  destruct (drv c (List.length (historico s))); simpl;
    (split; [assumption|split]);
    try (intros b Hin; apply in_app_iff in Hin; destruct Hin as [Hin|[Hin|[]]];
         [now apply (Hcl b)|inversion Hin; congruence]);
    intros Hn Hin; apply in_app_iff in Hin; destruct Hin as [Hin|[Hin|[]]];
    try (now apply Hco); inversion Hin; congruence.
Qed.

Lemma preserva_get_connection : preserva (_get_connection drv).
Proof.
  intros s (Ha & Hcl & Hco). unfold _get_connection, bind, le_connection, conecta,
    set_connection, ret. simpl.
  destruct (_connection s) as [h|] eqn:Hc; simpl.
  - unfold coerente. rewrite Hc. auto.
  - destruct (drv Connect (List.length (historico s))); simpl; unfold coerente; simpl.
    + rewrite Hc. split; [assumption|split].
      * intros b Hin. apply in_app_iff in Hin. destruct Hin as [Hin|[Hin|[]]];
          [now apply (Hcl b)|discriminate].
      * intros _ Hin. apply in_app_iff in Hin. destruct Hin as [Hin|[Hin|[]]];
          [now apply Hco|discriminate].
    + rewrite Ha. split; [reflexivity|split].
      * intros b Hin. apply in_app_iff in Hin. destruct Hin as [Hin|[Hin|[]]];
          [now apply (Hcl b)|discriminate].
      * discriminate.
Qed.

Lemma preserva_rollback : preserva (rollback_se_conectado drv).
Proof.
  unfold rollback_se_conectado. apply preserva_bind; [apply preserva_le_connection|].
  intros [h|]; [apply preserva_chama; discriminate|apply preserva_ret].
Qed.

Ltac passo_preserva :=
  first [ apply preserva_get_connection
        | apply preserva_rollback
        | apply preserva_ret
        | apply preserva_lift
        | (apply preserva_chama; discriminate)
        | (apply preserva_bind; [|intros ?]) ].

Lemma preserva_guia n g : preserva (atualizar_autorizacao_guia drv n g).
Proof.
  unfold atualizar_autorizacao_guia. apply preserva_tenta.
  - repeat passo_preserva.
  - intros e. repeat passo_preserva.
Qed.

Lemma preserva_estagio n st : preserva (atualizar_estagio_autorizacao drv n st).
Proof.
  unfold atualizar_estagio_autorizacao. apply preserva_tenta.
  - repeat passo_preserva.
  - intros e. repeat passo_preserva.
Qed.

Lemma preserva_corpo_try n g st : preserva (corpo_try drv n g st).
Proof.
  unfold corpo_try.
  apply preserva_bind.
  - destruct (truthy g); [|apply preserva_ret].
    apply preserva_bind; [apply preserva_guia|].
    intros [s m]. destruct (s =? "ERRO")%string; apply preserva_ret.
  - intros [s1 m1]. apply preserva_bind; [|intros [[s2 m2] e2]; apply preserva_ret].
    destruct (truthy st); [|apply preserva_ret].
    apply preserva_bind; [apply preserva_estagio|].
    intros [[s m] k]. destruct (s =? "ERRO")%string; apply preserva_ret.
Qed.

(** [close] on a coherent repository: the call on the handle is the last
    entry of the history, and when the driver's [close] returns, the field
    is reset and no handle stays open. *)
Lemma close_coerente s :
  coerente s ->
  (In (Connect, true) (historico (snd (close drv s))) ->
   exists h b, historico (snd (close drv s)) = (h ++ [(Close, b)])%list
               /\ forall b', ~ In (Close, b') h)
  /\ ((forall n, drv Close n = None) ->
      _connection (snd (close drv s)) = None /\ abertas (snd (close drv s)) = []).
Proof.
  intros (Ha & Hcl & Hco).
  unfold close, bind, le_connection, fecha, set_connection, ret. simpl.
  destruct (_connection s) as [h|] eqn:Hc; simpl.
  - destruct (drv Close (List.length (historico s))) as [e|] eqn:Hd; simpl.
    + split.
      * intros _. exists (historico s), false. auto.
      * intros Hok. rewrite Hok in Hd. discriminate.
    + split.
      * intros _. exists (historico s), true. auto.
      * intros _. rewrite Ha. simpl. rewrite Nat.eqb_refl. auto.
  - split.
    + intros Hin. exfalso. now apply Hco.
    + intros _. rewrite Hc. auto.
Qed.

Lemma finalmente_estado {A} (m : M A) (f : M unit) s :
  snd (finalmente m f s) = snd (f (snd (m s))).
Proof.
  unfold finalmente. destruct (m s) as [r s1]. simpl.
  destruct (f s1) as [[u|e] s2]; reflexivity.
Qed.

Lemma repositorio_novo_coerente : coerente repositorio_novo.
Proof. unfold coerente; simpl. intuition. Qed.

End Repositorio.

(** [close] on a coherent repository, by what the driver's [close] did:
    unless it failed, the field is reset and no handle stays open; when
    it failed, [close] raises and the field keeps the handle, still
    open. *)
Lemma close_desfecho drv s :
  coerente s ->
  (~ In (Close, false) (historico (snd (close drv s))) ->
   _connection (snd (close drv s)) = None /\ abertas (snd (close drv s)) = [])
  /\ (In (Close, false) (historico (snd (close drv s))) ->
      (exists e, fst (close drv s) = Levanta e)
      /\ exists h, _connection (snd (close drv s)) = Some h
                   /\ abertas (snd (close drv s)) = [h]).
Proof.
  intros (Ha & Hcl & Hco).
  unfold close, bind, le_connection, fecha, set_connection, ret. simpl.
  destruct (_connection s) as [h|] eqn:Hc; simpl.
  - destruct (drv Close (List.length (historico s))) as [e|] eqn:Hd; simpl.
    + split.
      * intros Hn. exfalso. apply Hn. apply in_or_app. right. now left.
      * intros _. split; [eauto|]. exists h. rewrite Hc, Ha. auto.
    + split.
      * intros _. rewrite Ha. simpl. rewrite Nat.eqb_refl. auto.
      * intros Hin. apply in_app_or in Hin. destruct Hin as [Hin|[Hin|[]]].
        -- exfalso. now apply (Hcl false).
        -- discriminate.
  - split.
    + intros _. rewrite Hc, Ha. auto.
    + intros Hin. exfalso. now apply (Hcl false).
Qed.

Lemma finalmente_resultado {A} (m : M A) (f : M unit) s e :
  fst (f (snd (m s))) = Levanta e -> fst (finalmente m f s) = Levanta e.
Proof.
  unfold finalmente. destruct (m s) as [r s1]. simpl.
  destruct (f s1) as [[u|e'] s2]; simpl; congruence.
Qed.

(** C10, as stated, fails: when the driver's own [close] raises, the
    handler unwinds through that exception with the connection still in
    the [_connection] field and still open. *)
Lemma c10_contra_exemplo :
  handle_atualizar_autorizacao driver_close_falha tarefa_autorizacao =
  (Levanta DatabaseError,
   {| _connection := Some 0%nat; abertas := [0%nat];
      historico := [(Connect, true); (Cursor, true);
                    (ExecuteGuia 123 (TLit "95687"), true); (Commit, true);
                    (Cursor, true); (ExecuteEstagio 123 2, true); (Commit, true);
                    (Close, false)] |}).
Proof. vm_compute. reflexivity. Qed.

(** C10, amended.  In every invocation of [handle_atualizar_autorizacao],
    whatever the driver does and however the handler leaves (a success
    result, an error result, or an exception that unwinds through it): if
    a connection was opened, [close] was called on it and is the last
    driver call; unless the driver's [close] itself failed, the
    [_connection] field is back to [None] and no connection stays open;
    and when the driver's [close] failed, its exception leaves the
    handler and the field still holds the connection, which stays
    open. *)
Theorem c10_conexao_fechada_em_toda_saida :
  forall (drv : driver) (task : ExternalTask)
         (r : resultado TaskResult) (s : repositorio),
    handle_atualizar_autorizacao drv task = (r, s) ->
    (In (Connect, true) (historico s) ->
     exists h b, historico s = (h ++ [(Close, b)])%list
                 /\ forall b', ~ In (Close, b') h)
    /\ ((forall n, drv Close n = None) ->
        _connection s = None /\ abertas s = [])
    /\ (~ In (Close, false) (historico s) ->
        _connection s = None /\ abertas s = [])
    /\ (In (Close, false) (historico s) ->
        (exists e, r = Levanta e)
        /\ exists h, _connection s = Some h /\ abertas s = [h]).
Proof.
  intros drv task r s H.
  assert (Hs : s = snd (handle_atualizar_autorizacao drv task)) by now rewrite H.
  assert (Hr : r = fst (handle_atualizar_autorizacao drv task)) by now rewrite H.
  clear H. unfold handle_atualizar_autorizacao in Hs, Hr.
  assert (Hnovo : forall r0 : resultado TaskResult,
            (In (Connect, true) (historico repositorio_novo) ->
             exists h b, historico repositorio_novo = (h ++ [(Close, b)])%list
                         /\ forall b', ~ In (Close, b') h)
            /\ ((forall n, drv Close n = None) ->
                _connection repositorio_novo = None /\ abertas repositorio_novo = [])
            /\ (~ In (Close, false) (historico repositorio_novo) ->
                _connection repositorio_novo = None /\ abertas repositorio_novo = [])
            /\ (In (Close, false) (historico repositorio_novo) ->
                (exists e, r0 = Levanta e)
                /\ exists h, _connection repositorio_novo = Some h
                             /\ abertas repositorio_novo = [h])).
  { intros r0. split; [intros []|]. split; [auto|]. split; [auto|intros []]. }
  destruct (negb (truthy _)); [subst s; apply Hnovo|].
  destruct (py_int _) as [n|[]]; try (subst s; apply Hnovo).
  unfold com_repositorio in Hs, Hr.
  match type of Hs with
  | s = snd (finalmente ?m _ _) =>
      assert (Hco : coerente (snd (m repositorio_novo)))
  end.
  { apply preserva_tenta; [apply preserva_corpo_try|intros e; apply preserva_ret|].
    apply repositorio_novo_coerente. }
  rewrite finalmente_estado in Hs.
  destruct (close_coerente drv _ Hco) as (C1 & C2).
  destruct (close_desfecho drv _ Hco) as (C3 & C4).
  rewrite <- Hs in C1, C2, C3, C4.
  split; [exact C1|]. split; [exact C2|]. split; [exact C3|].
  intros Hin. destruct (C4 Hin) as ((e & He) & Hh). split; [|exact Hh].
  exists e. rewrite Hr. now apply finalmente_resultado.
Qed.

(** The three ways out of the handler, each with the connection closed. *)
Lemma c10_conexao_fechada_em_toda_saida_witness :
  (exists vars,
      handle_atualizar_autorizacao driver_ok tarefa_autorizacao
      = (Ret (Success vars),
         {| _connection := None; abertas := [];
            historico := [(Connect, true); (Cursor, true);
                          (ExecuteGuia 123 (TLit "95687"), true); (Commit, true);
                          (Cursor, true); (ExecuteEstagio 123 2, true); (Commit, true);
                          (Close, true)] |})
      /\ variavel vars "oracle_status" = Some (STexto (TLit "SUCESSO")))
  /\ (exists vars s,
         handle_atualizar_autorizacao driver_execute_falha tarefa_autorizacao
         = (Ret (Success vars), s)
         /\ variavel vars "oracle_status" = Some (STexto (TLit "ERRO"))
         /\ _connection s = None /\ abertas s = [])
  /\ handle_atualizar_autorizacao driver_interrompido tarefa_autorizacao
     = (Levanta KeyboardInterrupt,
        {| _connection := None; abertas := [];
           historico := [(Connect, true); (Cursor, false); (Close, true)] |}).
Proof.
  split; [|split].
  - eexists. split; reflexivity.
  - destruct (handle_atualizar_autorizacao driver_execute_falha tarefa_autorizacao)
      as [r s] eqn:Hh.
    destruct (c10_conexao_fechada_em_toda_saida driver_execute_falha tarefa_autorizacao r s Hh)
      as (_ & Hc & _).
    destruct (Hc (fun n => eq_refl)) as (Hc1 & Hc2).
    vm_compute in Hh. inversion Hh; subst.
    eexists. eexists. split; [reflexivity|]. split; [reflexivity|]. split; assumption.
  - reflexivity.
Defined.

(* ===================================================================== *)
(** * More of the RPA worker *)
(* ===================================================================== *)

(** X1.  A budget that is zero or negative: the first turn reports the
    timeout, no status query is made. *)
Theorem orcamento_nao_positivo_sem_consulta :
  forall (c : IBMRPAConfig) (w : remoto) (t0 : Z) (fuel : nat),
    timeout_seconds c <= 0 ->
    (0 < fuel)%nat ->
    aguardar_conclusao c w fuel t0 =
    Some (Ret (TIMEOUT, TLit ("Timeout após " ++ decimal (timeout_seconds c) ++ "s"), PNone),
          {| agora := t0; consultas := 0; traco := [EvAvisoTimeout] |}).
Proof.
  intros c w t0 fuel Ht Hf. destruct fuel as [|f]; [lia|].
  unfold aguardar_conclusao. simpl.
  rewrite iteracao_timeout by (unfold orcamento; cbn [agora]; lia). reflexivity.
Qed.

Lemma orcamento_nao_positivo_sem_consulta_witness :
  timeout_seconds config_sem_orcamento <= 0
  /\ (0 < 3)%nat
  /\ aguardar_conclusao config_sem_orcamento remoto_sempre_running 3 1000 =
     Some (Ret (TIMEOUT, TLit "Timeout após 0s", PNone),
           {| agora := 1000; consultas := 0; traco := [EvAvisoTimeout] |}).
Proof.
  assert (H1 : timeout_seconds config_sem_orcamento <= 0) by (simpl; lia).
  assert (H2 : (0 < 3)%nat) by lia.
  repeat (split; [assumption|]).
  exact (orcamento_nao_positivo_sem_consulta config_sem_orcamento remoto_sempre_running
           1000 3 H1 H2).
Defined.

(** A [TIMEOUT] tuple carries the timeout text and no output. *)
Lemma timeout_sem_saida c w t0 fuel m o st :
  aguardar_conclusao c w fuel t0 = Some (Ret (TIMEOUT, m, o), st) ->
  m = TLit ("Timeout após " ++ decimal (timeout_seconds c) ++ "s") /\ o = PNone.
Proof.
  unfold aguardar_conclusao. intros H.
  destruct (laco_invariante c w t0 (fun _ => True) (fun _ _ _ _ => I) fuel _ _ _ I H)
    as (stp & _ & Hit).
  apply iteracao_termina in Hit.
  destruct Hit as [(_ & Hr & _)|(_ & _ & Hnt & _)].
  - inversion Hr; auto.
  - exfalso. eapply Hnt; reflexivity.
Qed.

(** X3.  A run that times out is reported as a success whose [rpa_status] is
    [TIMEOUT], with the instance id the start returned, the timeout text
    and [None] for the three authorisation fields. *)
Theorem timeout_relatado_sem_campos :
  forall (c : IBMRPAConfig) (w : remoto) (fuel : nat) (t0 : Z) (task : ExternalTask)
         (p : dict) (id : pyval) (m : texto) (o : pyval) (st : estado),
    process_id c <> "" ->
    montar_payload (get_variables task) = Ret p ->
    iniciar_processo w p = Ret id ->
    aguardar_conclusao c w fuel t0 = Some (Ret (TIMEOUT, m, o), st) ->
    handle_executar_rpa c w fuel t0 task =
    Some (Ret (Success
                 [("rpa_status", STexto (TLit "TIMEOUT"));
                  ("rpa_instance_id", saida_de id);
                  ("rpa_mensagem",
                   STexto (TLit ("Timeout após " ++ decimal (timeout_seconds c) ++ "s")));
                  ("rpa_data_execucao", STexto (TIso (agora st)));
                  ("numero_autorizacao", SNone);
                  ("status_autorizacao", SNone);
                  ("nr_guia_requisicao", SNone)]), st).
Proof.
  intros c w fuel t0 task p id m o st Hp Hm Hi Ha.
  destruct (timeout_sem_saida c w t0 fuel m o st Ha) as (-> & ->).
  rewrite (handle_apos_espera c w fuel t0 task p id _ _ _ st Hp Hm Hi Ha).
  reflexivity.
Qed.

Lemma timeout_relatado_sem_campos_witness :
  handle_executar_rpa config_curto remoto_sempre_running 4 0 tarefa_exemplo =
  Some (Ret (Success
               [("rpa_status", STexto (TLit "TIMEOUT"));
                ("rpa_instance_id", saida_de (PStr "inst-1"));
                ("rpa_mensagem", STexto (TLit "Timeout após 10s"));
                ("rpa_data_execucao", STexto (TIso 10400));
                ("numero_autorizacao", SNone);
                ("status_autorizacao", SNone);
                ("nr_guia_requisicao", SNone)]), estado_fim_curto).
Proof.
  assert (H1 : process_id config_curto <> "") by discriminate.
  assert (H2 : montar_payload (get_variables tarefa_exemplo) = Ret payload_exemplo)
    by (vm_compute; reflexivity).
  assert (H3 : iniciar_processo remoto_sempre_running payload_exemplo = Ret (PStr "inst-1"))
    by (vm_compute; reflexivity).
  assert (H4 : aguardar_conclusao config_curto remoto_sempre_running 4 0
               = Some (Ret (TIMEOUT, TLit "Timeout após 10s", PNone), estado_fim_curto))
    by (vm_compute; reflexivity).
  exact (timeout_relatado_sem_campos config_curto remoto_sempre_running 4 0 tarefa_exemplo
           payload_exemplo (PStr "inst-1") (TLit "Timeout após 10s") PNone
           estado_fim_curto H1 H2 H3 H4).
Defined.





(** X6.  With the four codes absent, [None] or integers, the payload is built
    without an exception: an absent code becomes 0 and an absent name the
    empty string. *)
Theorem payload_com_codigos_inteiros :
  forall (variables : dict),
    inteiro_ou_ausente variables "convenio_codigo" ->
    inteiro_ou_ausente variables "procedimento_codigo" ->
    inteiro_ou_ausente variables "medico_crm" ->
    inteiro_ou_ausente variables "guia_solicitacao" ->
    montar_payload variables =
    Ret [("paciente_nome", ou (get_ou variables "paciente_nome" (PStr "")) (PStr ""));
         ("convenio_codigo", PInt (codigo_de variables "convenio_codigo"));
         ("procedimento_codigo", PInt (codigo_de variables "procedimento_codigo"));
         ("medico_crm", PInt (codigo_de variables "medico_crm"));
         ("guia_solicitacao", PInt (codigo_de variables "guia_solicitacao"))].
Proof.
  intros variables H1 H2 H3 H4.
  assert (Hk : forall k, inteiro_ou_ausente variables k ->
                 int_ou_zero (get_ou variables k PNone) = Ret (codigo_de variables k)).
  { intros k. unfold inteiro_ou_ausente, int_ou_zero, get_ou, codigo_de.
    destruct (dict_get variables k) as [[ | |z| | | | ]|]; try contradiction;
      try reflexivity.
    intros _. simpl. destruct (Z.eqb_spec z 0); simpl; congruence. }
  unfold montar_payload. rewrite !Hk by assumption. reflexivity.
Qed.

Lemma payload_com_codigos_inteiros_witness :
  montar_payload [("paciente_nome", PStr "Maria"); ("convenio_codigo", PInt 12);
                  ("medico_crm", PNone)] =
  Ret [("paciente_nome", PStr "Maria");
       ("convenio_codigo", PInt 12);
       ("procedimento_codigo", PInt 0);
       ("medico_crm", PInt 0);
       ("guia_solicitacao", PInt 0)].
Proof.
  exact (payload_com_codigos_inteiros
           [("paciente_nome", PStr "Maria"); ("convenio_codigo", PInt 12);
            ("medico_crm", PNone)] I I I I).
Defined.

(** Where an exception that leaves a turn comes from: [time.sleep], a
    body or status without the method called on it, or the query. *)
Lemma iteracao_excecao c w t0 st e st' :
  iteracao c w t0 st = Termina (Levanta e) st' ->
  e = ValueError \/ e = AttributeError \/ resp_consulta w (consultas st) = Levanta e.
Proof.
  unfold iteracao.
  destruct (Z.leb_spec (1000 * timeout_seconds c) (agora st - t0)) as [Hb|Hb];
    [discriminate|].
  destruct (resp_consulta w (consultas st)) as [data|e1].
  - destruct data as [ | | | | | |d]; simpl;
      try solve [intros Hx; inversion Hx; right; left; reflexivity].
    destruct (match dict_get d "status" with Some x => x | None => PStr "" end)
      as [ | | | |s| | ]; simpl;
      try solve [intros Hx; inversion Hx; right; left; reflexivity].
    destruct (classificar (upper s)) as [[]| |]; try discriminate;
      intros Hx; apply dormir_termina in Hx; destruct Hx as (_ & Hx & _);
      inversion Hx; left; reflexivity.
  - destruct (eh_RequestException e1) eqn:He.
    + intros Hx; apply dormir_termina in Hx; destruct Hx as (_ & Hx & _); inversion Hx;
        left; reflexivity.
    + intros Hx; inversion Hx; subst. right; right; reflexivity.
Qed.

(** X7.  The handler always answers: with the payload built, every turn
    letting the clock advance and the remote side raising only what
    [except Exception] catches, enough fuel gives a task result. *)
Theorem handler_sempre_responde :
  forall (c : IBMRPAConfig) (w : remoto) (t0 : Z) (task : ExternalTask) (p : dict),
    montar_payload (get_variables task) = Ret p ->
    (forall k, 0 < dur_consulta w k + 1000 * poll_interval_seconds c) ->
    (forall k e, resp_consulta w k = Levanta e -> eh_Exception e = true) ->
    (forall e, resp_inicio w p = Levanta e -> eh_Exception e = true) ->
    exists fuel tr st, handle_executar_rpa c w fuel t0 task = Some (Ret tr, st).
Proof.
  intros c w t0 task p Hm Hprog Hq Hi.
  unfold handle_executar_rpa, bloco_try. rewrite Hm.
  destruct (process_id c =? "")%string; [exists 0%nat; eauto|].
  destruct (iniciar_processo w p) as [id|e] eqn:Hini.
  - destruct (laco_termina c w t0 Hprog (Z.to_nat (orcamento c)) (estado_inicial t0))
      as (fuel & r & st & Hrun); [simpl; lia|].
    exists fuel. unfold aguardar_conclusao.
    change {| agora := t0; consultas := 0; traco := [] |} with (estado_inicial t0).
    rewrite Hrun. destruct r as [[[rs m] o]|e].
    + destruct (extrair o) as [cs|e] eqn:Hex; [eauto|].
      rewrite (extrair_excecao _ _ Hex). eauto.
    + assert (He : eh_Exception e = true).
      { destruct (laco_invariante c w t0 (fun _ => True) (fun _ _ _ _ => I)
                    fuel _ _ _ I Hrun) as (stp & _ & Hit).
        apply iteracao_excecao in Hit. destruct Hit as [->|[->|Hit]]; eauto. }
      rewrite He. eauto.
  - assert (He : eh_Exception e = true).
    { unfold iniciar_processo in Hini.
      destruct (resp_inicio w p) as [data|e1] eqn:Hr; simpl in Hini.
      - apply metodo_get_excecao in Hini. now subst.
      - inversion Hini; subst. now apply Hi. }
    exists 0%nat. rewrite He. eauto.
Qed.

Lemma handler_sempre_responde_witness :
  exists fuel tr st,
    handle_executar_rpa config_curto remoto_falha_e_conclui fuel 0 tarefa_exemplo =
    Some (Ret tr, st).
Proof.
  assert (H1 : montar_payload (get_variables tarefa_exemplo) = Ret payload_exemplo)
    by (vm_compute; reflexivity).
  assert (H2 : forall k, 0 < dur_consulta remoto_falha_e_conclui k
                           + 1000 * poll_interval_seconds config_curto)
    by (intros k; simpl; lia).
  assert (H3 : forall k e, resp_consulta remoto_falha_e_conclui k = Levanta e ->
                           eh_Exception e = true).
  { intros [|[|k]] e H; simpl in H; inversion H; reflexivity. }
  assert (H4 : forall e, resp_inicio remoto_falha_e_conclui payload_exemplo = Levanta e ->
                         eh_Exception e = true)
    by (intros e H; discriminate H).
  exact (handler_sempre_responde config_curto remoto_falha_e_conclui 0 tarefa_exemplo
           payload_exemplo H1 H2 H3 H4).
Defined.

Lemma percorrer_app l1 : forall l2 c,
  percorrer_variaveis c (l1 ++ l2) =
  (c' <- percorrer_variaveis c l1 ;; percorrer_variaveis c' l2).
Proof.
  induction l1 as [|x l1 IH]; intros l2 c; simpl; [reflexivity|].
  destruct (passo_variavel c x); simpl; [apply IH|reflexivity].
Qed.

(** X8.  The variables list is the fallback: when the outputs hold no alias
    of a field, the field takes the value of the first entry of the list
    that is named by one of its aliases, provided that value is truthy;
    later entries do not change it. *)
Theorem variaveis_como_reserva :
  forall (f : campo) (d o dv : dict) (pre pos : list pyval) (cs : campos),
    d <> [] ->
    get_ou d "outputs" (PDict []) = PDict o ->
    (forall a, In a (aliases_de f) -> dict_get o a = None) ->
    get_ou d "variables" (PList []) = PList (pre ++ PDict dv :: pos) ->
    (forall dx, In (PDict dx) pre ->
       em_tupla (get_ou dx "name" (PStr "")) (aliases_de f) = false) ->
    em_tupla (get_ou dv "name" (PStr "")) (aliases_de f) = true ->
    truthy (get_ou dv "value" PNone) = true ->
    extrair (PDict d) = Ret cs ->
    valor_lido f (get_ou dv "value" PNone) cs.
Proof.
  intros f d o dv pre pos cs Hd Ho Hsem Hv Hpre Hnome Hval Hex.
  rewrite extrair_dict, Ho, Hv in Hex by assumption.
  destruct (extrair_outputs (PDict o)) as [c0|e] eqn:Hout; [|discriminate].
  cbn [liga] in Hex. rewrite percorrer_app in Hex.
  destruct (percorrer_variaveis c0 pre) as [c1|e] eqn:Hw1; [|discriminate].
  cbn [liga] in Hex. simpl percorrer_variaveis in Hex.
  destruct (passo_variavel c1 (PDict dv)) as [c2|e] eqn:Hp; [|discriminate].
  cbn [liga] in Hex.
  (* the field is still None when the entry is reached *)
  assert (H0 : valor_campo f c0 = SNone).
  { rewrite extrair_outputs_dict in Hout.
    pose proof (escolhe_ausente o (aliases_de f) Hsem) as Hesc.
    destruct (if eh_None (escolhe o aliases_guia) then Ret None
              else t <- texto_guia (escolhe o aliases_guia);; Ret (Some t))
      as [g|e] eqn:Hg; cbn [liga] in Hout; [|discriminate].
    assert (Hc0 : c0 = {| numero_autorizacao := escolhe o aliases_numero;
                          status_autorizacao := escolhe o aliases_status;
                          nr_guia_requisicao := g |}) by congruence.
    rewrite Hc0.
    destruct f; cbn [aliases_de valor_campo numero_autorizacao status_autorizacao
                       nr_guia_requisicao] in *.
    - now rewrite Hesc.
    - now rewrite Hesc.
    - rewrite Hesc in Hg. cbn in Hg. assert (g = None) by congruence. now subst. }
  assert (H1 : valor_campo f c1 = SNone)
    by (rewrite <- H0; eapply percorrer_sem_alias; eassumption).
  destruct (percorrer_preserva _ _ _ Hex) as (P1 & P2 & P3).
  unfold passo_variavel in Hp. simpl in Hp. fold (get_ou dv "name" (PStr "")) in Hp.
  fold (get_ou dv "value" PNone) in Hp.
  destruct (get_ou dv "name" (PStr "")) as [ | | | |nm| | ] eqn:Hnm; try discriminate.
  destruct f; cbn [aliases_de valor_campo valor_lido] in *.
  - (* numero_autorizacao *)
    assert (Hn : numero_autorizacao c1 = PNone)
      by (destruct (numero_autorizacao c1); try discriminate; reflexivity).
    rewrite Hnome, Hn in Hp. simpl in Hp. inversion Hp; subst c2. simpl in P1.
    now apply P1.
  - assert (Hn : status_autorizacao c1 = PNone)
      by (destruct (status_autorizacao c1); try discriminate; reflexivity).
    assert (Hdis : em_tupla (PStr nm) aliases_numero = false).
    { simpl in Hnome. rewrite !orb_false_r in Hnome.
      apply orb_true_iff in Hnome. destruct Hnome as [H|H];
        apply String.eqb_eq in H; subst; reflexivity. }
    rewrite Hdis, Hnome, Hn in Hp. simpl in Hp. inversion Hp; subst c2. simpl in P2.
    now apply P2.
  - assert (Hn : nr_guia_requisicao c1 = None)
      by (destruct (nr_guia_requisicao c1); try discriminate; reflexivity).
    assert (Hdis : em_tupla (PStr nm) aliases_numero = false
                   /\ em_tupla (PStr nm) aliases_status = false).
    { simpl in Hnome. rewrite !orb_false_r in Hnome.
      apply orb_true_iff in Hnome. destruct Hnome as [H|H];
        [|apply orb_true_iff in H; destruct H as [H|H]];
        apply String.eqb_eq in H; subst; split; reflexivity. }
    destruct Hdis as (Hd1 & Hd2).
    rewrite Hd1, Hd2, Hnome, Hn in Hp. simpl in Hp.
    destruct (get_ou dv "value" PNone) as [ |b|z|fl|s|l|dd] eqn:Hvv;
      try discriminate.
    + inversion Hp; subst c2. exists (py_str (PBool b)). split; [reflexivity|].
      apply P3. simpl. destruct b; [reflexivity|discriminate].
    + inversion Hp; subst c2. exists (TLit (decimal z)). split; [reflexivity|].
      apply P3. simpl. now rewrite decimal_nao_vazio.
    + simpl. destruct (int_de_float fl) as [z|e]; simpl in Hp; [|discriminate].
      inversion Hp; subst c2. exists (TLit (decimal z)). split; [reflexivity|].
      apply P3. simpl. now rewrite decimal_nao_vazio.
    + inversion Hp; subst c2. exists (TLit s). split; [reflexivity|].
      apply P3. simpl. exact Hval.
    + inversion Hp; subst c2. exists (TRepr (PList l)). split; [reflexivity|].
      apply P3. reflexivity.
    + inversion Hp; subst c2. exists (TRepr (PDict dd)). split; [reflexivity|].
      apply P3. reflexivity.
Qed.

Lemma variaveis_como_reserva_witness :
  extrair (PDict resultado_com_variaveis) =
    Ret {| numero_autorizacao := PStr "A-1";
           status_autorizacao := PStr "Autorizado";
           nr_guia_requisicao := None |}
  /\ valor_lido CStatus (PStr "Autorizado")
       {| numero_autorizacao := PStr "A-1";
          status_autorizacao := PStr "Autorizado";
          nr_guia_requisicao := None |}.
Proof.
  assert (H1 : resultado_com_variaveis <> []) by discriminate.
  assert (H2 : get_ou resultado_com_variaveis "outputs" (PDict []) = PDict outputs_so_numero)
    by reflexivity.
  assert (H3 : forall a, In a (aliases_de CStatus) -> dict_get outputs_so_numero a = None).
  { intros a [<-|[<-|[]]]; reflexivity. }
  assert (H4 : get_ou resultado_com_variaveis "variables" (PList []) =
               PList ([PDict variavel_numero] ++ PDict variavel_status
                                               :: [PDict variavel_status_tardia]))
    by reflexivity.
  assert (H5 : forall dx, In (PDict dx) [PDict variavel_numero] ->
               em_tupla (get_ou dx "name" (PStr "")) (aliases_de CStatus) = false).
  { intros dx [H|[]]. inversion H; subst. reflexivity. }
  assert (H6 : em_tupla (get_ou variavel_status "name" (PStr "")) (aliases_de CStatus) = true)
    by reflexivity.
  assert (H7 : truthy (get_ou variavel_status "value" PNone) = true) by reflexivity.
  assert (H8 : extrair (PDict resultado_com_variaveis) =
               Ret {| numero_autorizacao := PStr "A-1";
                      status_autorizacao := PStr "Autorizado";
                      nr_guia_requisicao := None |})
    by (vm_compute; reflexivity).
  split; [exact H8|].
  exact (variaveis_como_reserva CStatus resultado_com_variaveis outputs_so_numero
           variavel_status [PDict variavel_numero] [PDict variavel_status_tardia]
           _ H1 H2 H3 H4 H5 H6 H7 H8).
Defined.

(* ===================================================================== *)
(** * The HTTP client *)
(* ===================================================================== *)

Lemma obter_token_em_cache srv s :
  truthy (_access_token s) = true ->
  _obter_token srv s = (Ret (_access_token s), s).
Proof. intros H. unfold _obter_token. now rewrite H. Qed.

Lemma executa_em_cache srv a s :
  truthy (_access_token s) = true ->
  exists q,
    token_de q = Some (_access_token s)
    /\ _access_token (snd (executa srv a s)) = _access_token s
    /\ enviadas (snd (executa srv a s)) = (enviadas s ++ [q])%list.
Proof.
  intros H. destruct a as [pid payload|pid iid];
    unfold executa, IbmRpaHttp.iniciar_processo, consultar_status_instancia,
      _get_headers, bindc; rewrite (obter_token_em_cache srv s H); unfold envia, liftc.
  - exists (PostInstance pid payload (_access_token s)).
    destruct (srv _ _) as [data|e]; simpl; [|auto].
    destruct (metodo_get data "id" PNone); simpl; auto.
  - exists (GetInstance pid iid (_access_token s)). simpl. auto.
Qed.

(** X9.  Once the client holds a truthy token, any series of calls sends one
    request per call, never a token request, each carrying that token,
    and the token stays. *)
Theorem token_reutilizado :
  forall (srv : servidor) (l : list acao) (s : cliente),
    truthy (_access_token s) = true ->
    _access_token (executa_todas srv l s) = _access_token s
    /\ exists novas,
         enviadas (executa_todas srv l s) = (enviadas s ++ novas)%list
         /\ List.length novas = List.length l
         /\ Forall (fun q => token_de q = Some (_access_token s)) novas.
Proof.
  intros srv l. induction l as [|a r IH]; intros s H; simpl.
  - split; [reflexivity|]. exists []. rewrite app_nil_r. auto.
  - destruct (executa_em_cache srv a s H) as (q & Hq & Ht & He).
    destruct (IH (snd (executa srv a s))) as (IH1 & novas & IH2 & IH3 & IH4);
      [now rewrite Ht|].
    split; [now rewrite IH1|].
    exists (q :: novas). rewrite IH2, He, <- app_assoc. simpl.
    repeat split; auto. constructor; [assumption|]. now rewrite <- Ht.
Qed.

Lemma token_reutilizado_witness :
  truthy (_access_token cliente_com_token) = true
  /\ _access_token (executa_todas servidor_exemplo acoes_exemplo cliente_com_token) =
     PStr "tok-0"
  /\ exists novas,
       enviadas (executa_todas servidor_exemplo acoes_exemplo cliente_com_token) =
       (enviadas cliente_com_token ++ novas)%list
       /\ List.length novas = 3%nat
       /\ Forall (fun q => token_de q = Some (PStr "tok-0")) novas.
Proof.
  assert (H : truthy (_access_token cliente_com_token) = true) by reflexivity.
  split; [exact H|].
  exact (token_reutilizado servidor_exemplo acoes_exemplo cliente_com_token H).
Defined.

(** X10.  A new client starting a process: the token request goes first; if
    it fails, the exception leaves and no instance request is sent; if it
    answers a dict, the instance request carries the [access_token] of the
    answer, which the client keeps, and the result is the [id] of the
    body of the second answer. *)
Theorem inicio_com_cliente_novo :
  forall (srv : servidor) (pid : string) (payload : dict),
    match srv PostToken 0%nat with
    | Levanta e =>
        IbmRpaHttp.iniciar_processo srv pid payload cliente_novo =
        (Levanta e, {| _access_token := PNone; enviadas := [PostToken] |})
    | Ret (PDict d) =>
        let t := get_ou d "access_token" PNone in
        IbmRpaHttp.iniciar_processo srv pid payload cliente_novo =
        (data <- srv (PostInstance pid payload t) 1%nat ;; metodo_get data "id" PNone,
         {| _access_token := t; enviadas := [PostToken; PostInstance pid payload t] |})
    | Ret _ =>
        IbmRpaHttp.iniciar_processo srv pid payload cliente_novo =
        (Levanta AttributeError, {| _access_token := PNone; enviadas := [PostToken] |})
    end.
Proof.
  intros srv pid payload.
  unfold IbmRpaHttp.iniciar_processo, _get_headers, _obter_token, bindc, envia, liftc,
    guarda_token, retc, cliente_novo. simpl.
  destruct (srv PostToken 0%nat) as [[ | | | | | |d]|e]; simpl; try reflexivity.
  unfold get_ou. destruct (srv (PostInstance pid payload _) 1%nat) as [data|e];
    simpl; [|reflexivity].
  destruct (metodo_get data "id" PNone); reflexivity.
Qed.

(** X11.  A token answer without a truthy [access_token] is not kept: every
    call asks for a token again, so a series of calls sends two requests
    per call, the first of each pair a token request. *)
Theorem token_ausente_pedido_de_novo :
  forall (srv : servidor) (l : list acao) (s : cliente),
    truthy (_access_token s) = false ->
    (forall n, exists d, srv PostToken n = Ret (PDict d)
                         /\ truthy (get_ou d "access_token" PNone) = false) ->
    truthy (_access_token (executa_todas srv l s)) = false
    /\ exists novas,
         enviadas (executa_todas srv l s) = (enviadas s ++ novas)%list
         /\ List.length novas = (2 * List.length l)%nat
         /\ List.length (filter eh_post_token novas) = List.length l.
Proof.
  intros srv l. induction l as [|a r IH]; intros s H Hsrv; simpl.
  - split; [assumption|]. exists []. rewrite app_nil_r. auto.
  - destruct (Hsrv (List.length (enviadas s))) as (d & Hd & Hf).
    assert (Hpasso : exists q,
               eh_post_token q = false
               /\ truthy (_access_token (snd (executa srv a s))) = false
               /\ enviadas (snd (executa srv a s)) = (enviadas s ++ [PostToken; q])%list).
    { destruct a as [pid payload|pid iid];
        unfold executa, IbmRpaHttp.iniciar_processo, consultar_status_instancia,
          _get_headers, _obter_token, bindc, envia, liftc, guarda_token, retc;
        rewrite H; simpl; rewrite Hd; simpl; fold (get_ou d "access_token" PNone).
      - exists (PostInstance pid payload (get_ou d "access_token" PNone)).
        destruct (srv (PostInstance _ _ _) _) as [data|e]; simpl;
          [destruct (metodo_get data "id" PNone); simpl|];
          rewrite <- app_assoc; auto.
      - exists (GetInstance pid iid (get_ou d "access_token" PNone)).
        rewrite <- app_assoc. auto. }
    destruct Hpasso as (q & Hq & Ht & He).
    destruct (IH (snd (executa srv a s)) Ht Hsrv) as (IH1 & novas & IH2 & IH3 & IH4).
    split; [assumption|].
    exists (PostToken :: q :: novas). rewrite IH2, He, <- app_assoc. simpl.
    rewrite Hq. simpl. repeat split; lia.
Qed.

Lemma token_ausente_pedido_de_novo_witness :
  truthy (_access_token (executa_todas servidor_sem_token acoes_exemplo cliente_novo)) = false
  /\ exists novas,
       enviadas (executa_todas servidor_sem_token acoes_exemplo cliente_novo) =
       (enviadas cliente_novo ++ novas)%list
       /\ List.length novas = 6%nat
       /\ List.length (filter eh_post_token novas) = 3%nat.
Proof.
  assert (H1 : truthy (_access_token cliente_novo) = false) by reflexivity.
  assert (H2 : forall n, exists d, servidor_sem_token PostToken n = Ret (PDict d)
                                   /\ truthy (get_ou d "access_token" PNone) = false).
  { intros n. exists [("id", PStr "inst-1")]. split; reflexivity. }
  exact (token_ausente_pedido_de_novo servidor_sem_token acoes_exemplo cliente_novo H1 H2).
Defined.

(* ===================================================================== *)
(** * More of the Oracle worker *)
(* ===================================================================== *)

Ltac abre_handler :=
  cbv beta iota zeta delta
    [com_repositorio finalmente tenta corpo_try atualizar_autorizacao_guia
     atualizar_estagio_autorizacao close _get_connection rollback_se_conectado
     bind ret lift le_connection set_connection conecta fecha chama repositorio_novo
     _connection abertas historico List.length app String.eqb Ascii.eqb Bool.eqb].

Ltac casos_driver drv :=
  repeat (match goal with
          | |- context [drv ?c ?n] => destruct (drv c n) as [?e|] eqn:?
          | |- context [eh_Exception ?e] => destruct (eh_Exception e) eqn:?
          | |- context [truthy ?v] => destruct (truthy v) eqn:?
          end;
          cbv beta iota zeta delta
            [_connection abertas historico List.length app String.eqb Ascii.eqb Bool.eqb]).

Lemma com_repositorio_verifica drv n g st :
  let '(r, s) := com_repositorio drv n g st repositorio_novo in
  verifica r s = true.
Proof.
  abre_handler.
  destruct (obter_estagio_por_status st) as [k|ex] eqn:Hob;
    cbv beta iota zeta delta
      [_connection abertas historico List.length app String.eqb Ascii.eqb Bool.eqb].
  - casos_driver drv.
    all: try (congruence || (cbv -[Z.eqb decimal]; rewrite ?Z.eqb_refl; reflexivity)).
  - casos_driver drv.
    all: try (congruence || (cbv -[Z.eqb decimal]; rewrite ?Z.eqb_refl; reflexivity)).
Qed.

(** The stage a result reports is the one the mapper gives. *)
Lemma com_repositorio_estagio drv n g st k :
  estagio_relatado (fst (com_repositorio drv n g st repositorio_novo)) = Some k ->
  obter_estagio_por_status st = Ret k.
Proof.
  abre_handler.
  destruct (obter_estagio_por_status st) as [k'|ex] eqn:Hob;
    cbv beta iota zeta delta
      [_connection abertas historico List.length app String.eqb Ascii.eqb Bool.eqb];
    casos_driver drv;
    cbv -[Z.eqb decimal]; intros H; try discriminate; congruence.
Qed.

Lemma obter_estagio_excecao st e :
  obter_estagio_por_status st = Levanta e -> e = AttributeError.
Proof.
  unfold obter_estagio_por_status.
  destruct (negb (truthy st)); [discriminate|].
  destruct st; intros H; inversion H; reflexivity.
Qed.

(** With a driver that raises only what [except Exception] catches and
    whose [rollback] and [close] return, the block returns a result. *)
Lemma com_repositorio_retorna drv n g st :
  (forall c k e, drv c k = Some e -> eh_Exception e = true) ->
  (forall k, drv Rollback k = None) ->
  (forall k, drv Close k = None) ->
  exists vars, fst (com_repositorio drv n g st repositorio_novo) = Ret (Success vars).
Proof.
  intros Hex Hrb Hcl. abre_handler.
  destruct (obter_estagio_por_status st) as [k'|ex] eqn:Hob;
    cbv beta iota zeta delta
      [_connection abertas historico List.length app String.eqb Ascii.eqb Bool.eqb];
    casos_driver drv;
    repeat match goal with
           | H : drv Rollback _ = Some _ |- _ => rewrite Hrb in H; discriminate H
           | H : drv Close _ = Some _ |- _ => rewrite Hcl in H; discriminate H
           | H : drv ?c ?k = Some ?e, H' : eh_Exception ?e = false |- _ =>
               rewrite (Hex c k e H) in H'; discriminate H'
           end;
    try (eexists; reflexivity).
  all: apply obter_estagio_excecao in Hob; subst ex; discriminate.
Qed.

Lemma py_int_excecao v e :
  py_int v = Levanta e -> e = TypeError \/ e = ValueError \/ e = OverflowError.
Proof.
  destruct v as [ |b|z|f|s|l|d]; simpl; try solve [intros H; inversion H; auto].
  - destruct f; simpl; intros H; inversion H; auto.
  - unfold int_de_str.
    destruct (match strip s with
              | String "-" r => (true, r)
              | String "+" r => (false, r)
              | _ => (false, strip s)
              end) as [neg resto].
    destruct (le_digitos resto 0 false); intros H; inversion H; auto.
Qed.

(** The ways through the handler: the task is rejected before the
    repository exists, or the [try]/[finally] block runs on a new
    repository. *)
Lemma handle_oracle_casos drv task :
  let nr := get_ou (get_variables task) "nr_sequencia" PNone in
  (truthy nr = false /\
   handle_atualizar_autorizacao drv task =
   (Ret (Failure (TLit "nr_sequencia é obrigatório")
           "O parâmetro nr_sequencia deve ser informado ao iniciar o processo" 0 5000),
    repositorio_novo))
  \/ (truthy nr = true /\
      (py_int nr = Levanta ValueError \/ py_int nr = Levanta TypeError) /\
      handle_atualizar_autorizacao drv task =
      (Ret (Failure (TCat (TLit "nr_sequencia inválido: ") (py_str nr))
              "O parâmetro nr_sequencia deve ser um número inteiro" 0 5000),
       repositorio_novo))
  \/ (truthy nr = true /\ py_int nr = Levanta OverflowError /\
      handle_atualizar_autorizacao drv task = (Levanta OverflowError, repositorio_novo))
  \/ (exists n, truthy nr = true /\ py_int nr = Ret n /\
      handle_atualizar_autorizacao drv task =
      com_repositorio drv n
        (get_ou (get_variables task) "nr_guia_requisicao" PNone)
        (get_ou (get_variables task) "status_autorizacao" PNone)
        repositorio_novo).
Proof.
  unfold handle_atualizar_autorizacao, get_ou. cbv zeta.
  destruct (truthy _) eqn:Ht; simpl negb; cbv iota; [|left; auto].
  right.
  destruct (py_int _) as [n|e] eqn:Hi.
  - right; right. exists n. auto.
  - destruct (py_int_excecao _ _ Hi) as [->|[->| ->]]; [left|left|right; left]; auto.
Qed.

(** X12.  Every driver call the handler makes respects the transaction
    discipline, whatever the driver answers. *)
Theorem oracle_disciplina_das_chamadas :
  forall (drv : driver) (task : ExternalTask),
    disciplina (historico (snd (handle_atualizar_autorizacao drv task))) = true.
Proof.
  intros drv task.
  destruct (handle_oracle_casos drv task)
    as [(_ & ->)|[(_ & _ & ->)|[(_ & _ & ->)|(n & _ & _ & ->)]]]; try reflexivity.
  pose proof (com_repositorio_verifica drv n
                (get_ou (get_variables task) "nr_guia_requisicao" PNone)
                (get_ou (get_variables task) "status_autorizacao" PNone)) as H.
  destruct (com_repositorio _ _ _ _ _) as [r s]. simpl.
  unfold verifica in H. repeat (apply andb_true_iff in H; destruct H as [H ?]).
  assumption.
Qed.

(** X13.  The handler opens at most one connection per invocation: the
    second procedure reuses the connection of the first. *)
Theorem oracle_uma_conexao_por_tarefa :
  forall (drv : driver) (task : ExternalTask),
    (conexoes_abertas (historico (snd (handle_atualizar_autorizacao drv task))) <= 1)%nat.
Proof.
  intros drv task.
  destruct (handle_oracle_casos drv task)
    as [(_ & ->)|[(_ & _ & ->)|[(_ & _ & ->)|(n & _ & _ & ->)]]];
    try (simpl; unfold conexoes_abertas; simpl; lia).
  pose proof (com_repositorio_verifica drv n
                (get_ou (get_variables task) "nr_guia_requisicao" PNone)
                (get_ou (get_variables task) "status_autorizacao" PNone)) as H.
  destruct (com_repositorio _ _ _ _ _) as [r s]. simpl.
  unfold verifica in H. repeat (apply andb_true_iff in H; destruct H as [H ?]).
  now apply Nat.leb_le.
Qed.

(** X14.  The reported [oracle_status] is faithful to the history: it is
    [SUCESSO] exactly when every driver call returned and nothing was
    rolled back, and [ERRO] otherwise. *)
Theorem oracle_status_fiel_ao_historico :
  forall (drv : driver) (task : ExternalTask)
         (vars : list (string * saida)) (s : repositorio),
    handle_atualizar_autorizacao drv task = (Ret (Success vars), s) ->
    (variavel vars "oracle_status" = Some (STexto (TLit "SUCESSO"))
     /\ limpa (historico s) = true)
    \/ (variavel vars "oracle_status" = Some (STexto (TLit "ERRO"))
        /\ limpa (historico s) = false).
Proof.
  intros drv task vars s Hh.
  destruct (handle_oracle_casos drv task)
    as [(_ & H)|[(_ & _ & H)|[(_ & _ & H)|(n & _ & _ & H)]]];
    rewrite Hh in H; try discriminate.
  pose proof (com_repositorio_verifica drv n
                (get_ou (get_variables task) "nr_guia_requisicao" PNone)
                (get_ou (get_variables task) "status_autorizacao" PNone)) as Hv.
  rewrite <- H in Hv. unfold verifica in Hv.
  repeat (apply andb_true_iff in Hv; destruct Hv as [Hv ?]).
  unfold status_relatado in H1.
  destruct (variavel vars "oracle_status") as [[ |v|[st| | | | ]]|]; try discriminate.
  destruct (String.eqb_spec st "SUCESSO") as [->|Hn1]; [left; auto|].
  destruct (String.eqb_spec st "ERRO") as [->|Hn2].
  - right. split; [reflexivity|]. now apply negb_true_iff.
  - exfalso. revert H1 Hn1 Hn2. clear.
    destruct st as [|[[] [] [] [] [] [] [] []] st]; try discriminate; intros.
    all: repeat match goal with
           | H : match ?x with EmptyString => _ | String _ _ => _ end = true |- _ =>
               destruct x as [|[[] [] [] [] [] [] [] []] ?]; try discriminate
           end; congruence.
Qed.

Lemma oracle_status_fiel_ao_historico_witness :
  exists vars s,
    handle_atualizar_autorizacao driver_execute_falha tarefa_autorizacao =
    (Ret (Success vars), s)
    /\ ((variavel vars "oracle_status" = Some (STexto (TLit "SUCESSO"))
         /\ limpa (historico s) = true)
        \/ (variavel vars "oracle_status" = Some (STexto (TLit "ERRO"))
            /\ limpa (historico s) = false)).
Proof.
  eexists. eexists.
  refine ((fun H => conj H
             (oracle_status_fiel_ao_historico driver_execute_falha tarefa_autorizacao
                _ _ H)) _).
  vm_compute. reflexivity.
Defined.

(** X15.  A stage reported in the result is the stage the mapper gives for
    the task's status, and it was written: the [execute] of the stage
    procedure for that stage returned and so did the [commit] after it. *)
Theorem oracle_estagio_relatado_foi_gravado :
  forall (drv : driver) (task : ExternalTask) (k : Z),
    estagio_relatado (fst (handle_atualizar_autorizacao drv task)) = Some k ->
    obter_estagio_por_status (get_ou (get_variables task) "status_autorizacao" PNone) = Ret k
    /\ estagio_gravado k (historico (snd (handle_atualizar_autorizacao drv task))) = true.
Proof.
  intros drv task k.
  destruct (handle_oracle_casos drv task)
    as [(_ & ->)|[(_ & _ & ->)|[(_ & _ & ->)|(n & _ & _ & ->)]]]; try discriminate.
  intros Hk. split; [eapply com_repositorio_estagio; eassumption|].
  pose proof (com_repositorio_verifica drv n
                (get_ou (get_variables task) "nr_guia_requisicao" PNone)
                (get_ou (get_variables task) "status_autorizacao" PNone)) as Hv.
  destruct (com_repositorio _ _ _ _ _) as [r s]. simpl in *.
  unfold verifica in Hv. repeat (apply andb_true_iff in Hv; destruct Hv as [Hv ?]).
  now rewrite Hk in H.
Qed.

Lemma oracle_estagio_relatado_foi_gravado_witness :
  estagio_relatado (fst (handle_atualizar_autorizacao driver_ok tarefa_autorizacao)) = Some 2
  /\ obter_estagio_por_status
       (get_ou (get_variables tarefa_autorizacao) "status_autorizacao" PNone) = Ret 2
  /\ estagio_gravado 2
       (historico (snd (handle_atualizar_autorizacao driver_ok tarefa_autorizacao))) = true.
Proof.
  assert (H : estagio_relatado
                (fst (handle_atualizar_autorizacao driver_ok tarefa_autorizacao)) = Some 2)
    by (vm_compute; reflexivity).
  split; [exact H|].
  exact (oracle_estagio_relatado_foi_gravado driver_ok tarefa_autorizacao 2 H).
Defined.

(** X16.  Database errors do not leave the handler: with a driver that
    raises only what [except Exception] catches and whose [rollback] and
    [close] return, the handler returns a task result, unless [int()]
    overflows on [nr_sequencia] before the repository exists. *)
Theorem oracle_erros_de_banco_nao_escapam :
  forall (drv : driver) (task : ExternalTask),
    (forall c k e, drv c k = Some e -> eh_Exception e = true) ->
    (forall k, drv Rollback k = None) ->
    (forall k, drv Close k = None) ->
    (exists tr, fst (handle_atualizar_autorizacao drv task) = Ret tr)
    \/ handle_atualizar_autorizacao drv task = (Levanta OverflowError, repositorio_novo).
Proof.
  intros drv task Hex Hrb Hcl.
  destruct (handle_oracle_casos drv task)
    as [(_ & ->)|[(_ & _ & ->)|[(_ & _ & ->)|(n & _ & _ & ->)]]];
    try (left; eexists; reflexivity); [right; reflexivity|].
  left.
  destruct (com_repositorio_retorna drv n
              (get_ou (get_variables task) "nr_guia_requisicao" PNone)
              (get_ou (get_variables task) "status_autorizacao" PNone) Hex Hrb Hcl)
    as (vars & ->).
  eauto.
Qed.

Lemma oracle_erros_de_banco_nao_escapam_witness :
  (exists tr,
      fst (handle_atualizar_autorizacao driver_execute_falha tarefa_autorizacao) = Ret tr)
  \/ handle_atualizar_autorizacao driver_execute_falha tarefa_autorizacao =
     (Levanta OverflowError, repositorio_novo).
Proof.
  assert (H1 : forall c k e, driver_execute_falha c k = Some e -> eh_Exception e = true).
  { intros c k e H. destruct c; simpl in H; inversion H; reflexivity. }
  assert (H2 : forall k, driver_execute_falha Rollback k = None) by reflexivity.
  assert (H3 : forall k, driver_execute_falha Close k = None) by reflexivity.
  exact (oracle_erros_de_banco_nao_escapam driver_execute_falha tarefa_autorizacao H1 H2 H3).
Defined.

(** X17.  A task is rejected, with zero retries, exactly when
    [nr_sequencia] is falsy or [int()] raises [ValueError] or
    [TypeError] on it; a rejected task makes no driver call. *)
Theorem oracle_rejeicao_sem_banco :
  forall (drv : driver) (task : ExternalTask),
    let nr := get_ou (get_variables task) "nr_sequencia" PNone in
    ((truthy nr = false \/ py_int nr = Levanta ValueError \/ py_int nr = Levanta TypeError)
     <-> exists m d n rt,
           fst (handle_atualizar_autorizacao drv task) = Ret (Failure m d n rt))
    /\ (forall m d n rt s,
          handle_atualizar_autorizacao drv task = (Ret (Failure m d n rt), s) ->
          n = 0 /\ rt = 5000 /\ historico s = []).
Proof.
  intros drv task nr. subst nr.
  destruct (handle_oracle_casos drv task)
    as [(Ht & H)|[(Ht & Hi & H)|[(Ht & Hi & H)|(n & Ht & Hi & H)]]]; rewrite H.
  - split; [split; [intros _; repeat eexists|auto]|].
    intros m d n rt s Hx. inversion Hx; subst. auto.
  - split; [split; [intros _; repeat eexists|tauto]|].
    intros m d n rt s Hx. inversion Hx; subst. auto.
  - split; [split|].
    + intros [Hf|[Hf|Hf]]; congruence.
    + intros (m & d & n & rt & Hx). discriminate.
    + intros m d n rt s Hx. discriminate.
  - pose proof (com_repositorio_verifica drv n
                  (get_ou (get_variables task) "nr_guia_requisicao" PNone)
                  (get_ou (get_variables task) "status_autorizacao" PNone)) as Hv.
    destruct (com_repositorio _ _ _ _ _) as [r s0]. simpl.
    assert (Hnf : forall m d k rt, r <> Ret (Failure m d k rt)).
    { intros m d k rt ->. unfold verifica in Hv. simpl in Hv.
      rewrite !andb_false_r in Hv. discriminate. }
    split; [split|].
    + intros [Hf|[Hf|Hf]]; congruence.
    + intros (m & d & k & rt & Hx). now apply Hnf in Hx.
    + intros m d k rt s Hx. exfalso. apply (Hnf m d k rt). congruence.
Qed.

(** X18.  With [nr_sequencia] valid and neither a guide number nor a
    status to write, the handler reports [SUCESSO] without opening a
    connection or making any driver call. *)
Theorem oracle_nada_a_gravar :
  forall (drv : driver) (task : ExternalTask) (n : Z),
    let vars := get_variables task in
    truthy (get_ou vars "nr_sequencia" PNone) = true ->
    py_int (get_ou vars "nr_sequencia" PNone) = Ret n ->
    truthy (get_ou vars "nr_guia_requisicao" PNone) = false ->
    truthy (get_ou vars "status_autorizacao" PNone) = false ->
    handle_atualizar_autorizacao drv task =
    (Ret (Success
            [("oracle_status", STexto (TLit "SUCESSO"));
             ("oracle_mensagem",
              STexto (TCat (TLit "Guia não informada (ignorado)")
                        (TCat (TLit " | ") (TLit "Status não informado (ignorado)"))));
             ("nr_seq_estagio", SNone)]),
     repositorio_novo).
Proof.
  intros drv task n vars Ht Hi Hg Hs. subst vars.
  destruct (handle_oracle_casos drv task)
    as [(Ht' & _)|[(_ & [Hi'|Hi'] & _)|[(_ & Hi' & _)|(n' & _ & Hi' & ->)]]];
    try congruence.
  abre_handler. rewrite Hg, Hs. reflexivity.
Qed.

Lemma oracle_nada_a_gravar_witness :
  handle_atualizar_autorizacao driver_execute_falha tarefa_so_sequencia =
  (Ret (Success
          [("oracle_status", STexto (TLit "SUCESSO"));
           ("oracle_mensagem",
            STexto (TCat (TLit "Guia não informada (ignorado)")
                      (TCat (TLit " | ") (TLit "Status não informado (ignorado)"))));
           ("nr_seq_estagio", SNone)]),
   repositorio_novo).
Proof.
  assert (H1 : truthy (get_ou (get_variables tarefa_so_sequencia) "nr_sequencia" PNone) = true)
    by reflexivity.
  assert (H2 : py_int (get_ou (get_variables tarefa_so_sequencia) "nr_sequencia" PNone) =
               Ret 123)
    by (vm_compute; reflexivity).
  assert (H3 : truthy (get_ou (get_variables tarefa_so_sequencia) "nr_guia_requisicao" PNone)
               = false) by reflexivity.
  assert (H4 : truthy (get_ou (get_variables tarefa_so_sequencia) "status_autorizacao" PNone)
               = false) by reflexivity.
  exact (oracle_nada_a_gravar driver_execute_falha tarefa_so_sequencia 123 H1 H2 H3 H4).
Defined.

(** X19.  The stage mapper returns one of the four stages of the table, on
    every argument on which it returns, and it raises nothing but
    [AttributeError], exactly on a truthy argument that is not a string. *)
Theorem obter_estagio_imagem :
  forall (v : pyval),
    match obter_estagio_por_status v with
    | Ret k => In k [2; 6; 7; 29] /\ (truthy v = false \/ eh_str v = true)
    | Levanta e => e = AttributeError /\ truthy v = true /\ eh_str v = false
    end.
Proof.
  intros v. unfold obter_estagio_por_status.
  destruct (truthy v) eqn:Ht; simpl negb; cbv iota.
  - destruct v; try (repeat split; (reflexivity || assumption)).
    split; [|right; reflexivity].
    generalize (strip s). intros k. unfold STATUS_PARA_ESTAGIO. simpl.
    repeat match goal with |- context [if ?b then _ else _] => destruct b end;
      simpl; tauto.
  - split; [simpl; tauto|left; reflexivity].
Qed.

Lemma lstrip_so_espacos ws : so_espacos ws = true -> lstrip ws = EmptyString.
Proof.
  induction ws as [|c r IH]; simpl; [reflexivity|].
  intros H. apply andb_prop in H. destruct H as [Hc Hr]. rewrite Hc. auto.
Qed.

Lemma rstrip_so_espacos ws : so_espacos ws = true -> rstrip ws = EmptyString.
Proof.
  induction ws as [|c r IH]; simpl; [reflexivity|].
  intros H. apply andb_prop in H. destruct H as [Hc Hr]. rewrite (IH Hr), Hc. reflexivity.
Qed.

Lemma rstrip_app s ws : so_espacos ws = true -> rstrip (s ++ ws) = rstrip s.
Proof.
  intros H. induction s as [|c r IH]; simpl.
  - now apply rstrip_so_espacos.
  - now rewrite IH.
Qed.

Lemma strip_app_direita s ws : so_espacos ws = true -> strip (s ++ ws) = strip s.
Proof.
  intros H. unfold strip. induction s as [|c r IH].
  - simpl. rewrite (lstrip_so_espacos ws H). reflexivity.
  - cbn [append lstrip]. destruct (eh_espaco c); [exact IH|].
    change (String c (r ++ ws)) with (String c r ++ ws). now apply rstrip_app.
Qed.

Lemma strip_app_esquerda ws s : so_espacos ws = true -> strip (ws ++ s) = strip s.
Proof.
  unfold strip. induction ws as [|c r IH]; simpl; [reflexivity|].
  intros H. apply andb_prop in H. destruct H as [Hc Hr]. rewrite Hc. auto.
Qed.

Lemma strip_vazio_ou_truthy s : strip s = EmptyString \/ truthy (PStr s) = true.
Proof. destruct s; simpl; auto. Qed.

(** X20.  White space around the status does not change the stage. *)
Theorem obter_estagio_ignora_espacos :
  forall (antes s depois : string),
    so_espacos antes = true ->
    so_espacos depois = true ->
    obter_estagio_por_status (PStr (antes ++ s ++ depois)) =
    obter_estagio_por_status (PStr s).
Proof.
  intros antes s depois Ha Hd.
  assert (Hs : strip (antes ++ s ++ depois) = strip s).
  { rewrite strip_app_esquerda by assumption. now apply strip_app_direita. }
  assert (Hvazio : forall x, truthy (PStr x) = false ->
                     Ret (tabela_get STATUS_PARA_ESTAGIO (strip x) 6) = Ret 6 :> resultado Z).
  { intros x Hx. destruct x; [reflexivity|discriminate]. }
  unfold obter_estagio_por_status.
  destruct (truthy (PStr (antes ++ s ++ depois))) eqn:H1;
    destruct (truthy (PStr s)) eqn:H2; cbn [negb]; cbv iota.
  - now rewrite Hs.
  - rewrite Hs. now apply Hvazio.
  - rewrite <- Hs. symmetry. now apply Hvazio.
  - reflexivity.
Qed.

Lemma obter_estagio_ignora_espacos_witness :
  so_espacos "  " = true /\ so_espacos (String "010" "") = true /\
  obter_estagio_por_status (PStr ("  " ++ "Negado" ++ String "010" "")) =
  obter_estagio_por_status (PStr "Negado").
Proof.
  split; [reflexivity|]. split; [reflexivity|].
  apply (obter_estagio_ignora_espacos "  " "Negado" (String "010" "")); reflexivity.
Defined.

(** X21.  The connection is opened once: after [_get_connection] has
    returned, calling it again returns the same connection and makes no
    call on the driver. *)
Theorem get_connection_reusa :
  forall (drv : driver) (s s1 : repositorio) (h : nat),
    _get_connection drv s = (Ret h, s1) ->
    _get_connection drv s1 = (Ret h, s1).
Proof.
  intros drv s s1 h.
  unfold _get_connection, bind, le_connection, conecta, set_connection, ret.
  destruct (_connection s) as [h0|] eqn:Hc.
  - intros H. inversion H; subst. now rewrite Hc.
  - destruct (drv Connect _); intros H; inversion H; subst. reflexivity.
Qed.

Lemma get_connection_reusa_witness :
  _get_connection driver_ok repositorio_novo =
    (Ret 0%nat, {| _connection := Some 0%nat; abertas := [0%nat];
                   historico := [(Connect, true)] |})
  /\ _get_connection driver_ok
       {| _connection := Some 0%nat; abertas := [0%nat]; historico := [(Connect, true)] |} =
     (Ret 0%nat, {| _connection := Some 0%nat; abertas := [0%nat];
                    historico := [(Connect, true)] |}).
Proof.
  assert (H : _get_connection driver_ok repositorio_novo =
    (Ret 0%nat, {| _connection := Some 0%nat; abertas := [0%nat];
                   historico := [(Connect, true)] |})) by (vm_compute; reflexivity).
  split; [exact H|].
  exact (get_connection_reusa driver_ok repositorio_novo _ 0%nat H).
Defined.

(** X22.  [close] twice: a [close] that returns has forgotten the connection,
    so a second one returns without calling the driver; a [close] that
    raises had a connection and still holds it. *)
Theorem close_duas_vezes :
  forall (drv : driver) (s : repositorio),
    match close drv s with
    | (Ret _, s1) => _connection s1 = None /\ close drv s1 = (Ret tt, s1)
    | (Levanta _, s1) => _connection s1 = _connection s /\ _connection s <> None
    end.
Proof.
  intros drv s.
  unfold close, bind, le_connection, fecha, set_connection, ret.
  destruct (_connection s) as [h|] eqn:Hc.
  - destruct (drv Close _); cbn [_connection]; rewrite ?Hc.
    + split; [reflexivity|discriminate].
    + split; reflexivity.
  - split; [assumption|]. rewrite Hc. reflexivity.
Qed.

(* ===================================================================== *)
(** * The launcher *)
(* ===================================================================== *)

Lemma percorre_tabela_filtra existe t : forall acc,
  percorre_tabela existe t acc =
  (acc ++ map processo_de (filter (fun e => existe (EmWorkers (snd e))) t))%list.
Proof.
  induction t as [|[name f] r IH]; intros acc; simpl.
  - now rewrite app_nil_r.
  - unfold run_worker. destruct (existe (EmWorkers f)); simpl.
    + rewrite IH, <- app_assoc. reflexivity.
    + apply IH.
Qed.

Lemma run_all_filtra existe :
  run_all_workers existe =
  map processo_de (filter (fun e => existe (EmWorkers (snd e))) WORKERS).
Proof. unfold run_all_workers. now rewrite percorre_tabela_filtra. Qed.

Lemma workers_sem_repeticao : NoDup (map fst WORKERS).
Proof.
  unfold WORKERS. simpl.
  repeat (constructor; [simpl; intuition discriminate|]). constructor.
Qed.

Lemma nomes_sem_repeticao (g : string * string -> bool) t :
  NoDup (map fst t) -> NoDup (map fst (map processo_de (filter g t))).
Proof.
  induction t as [|[n f] r IH]; simpl.
  - constructor.
  - intros Hnd. inversion Hnd as [|x l Hnot Hr]; subst.
    destruct (g (n, f)); simpl; [|now apply IH].
    constructor; [|now apply IH].
    intros Hin. apply Hnot. apply in_map_iff in Hin.
    destruct Hin as ([n' p] & Heq & Hin'). apply in_map_iff in Hin'.
    destruct Hin' as ([n'' f''] & Heq' & Hin''). apply filter_In in Hin''.
    unfold processo_de in Heq'. simpl in Heq, Heq'. inversion Heq'; subst.
    apply in_map_iff. exists (n, f''). tauto.
Qed.

(** X23.  [run_all_workers] starts the workers of the table whose file exists,
    and only those, each under its own name once. *)
Theorem run_all_inicia_os_existentes :
  forall (existe : caminho -> bool),
    (forall name p,
        In (name, p) (run_all_workers existe) <->
        exists f, In (name, f) WORKERS
                  /\ existe (EmWorkers f) = true
                  /\ p = Popen (EmWorkers f))
    /\ NoDup (map fst (run_all_workers existe)).
Proof.
  intros existe. rewrite run_all_filtra.
  split.
  - intros name p. rewrite in_map_iff. split.
    + intros ([n f] & Heq & Hin). apply filter_In in Hin. destruct Hin as (Hin & Hex).
      inversion Heq; subst. exists f. auto.
    + intros (f & Hin & Hex & ->). exists (name, f). split; [reflexivity|].
      apply filter_In. auto.
  - apply nomes_sem_repeticao, workers_sem_repeticao.
Qed.

Lemma percorre_nomes_filtra existe l : forall acc,
  percorre_nomes existe l acc =
  (acc ++ map (fun n => (n, Popen (get_worker_path n)))
            (filter (fun n => existe (get_worker_path n)) l))%list.
Proof.
  induction l as [|n r IH]; intros acc; simpl.
  - now rewrite app_nil_r.
  - unfold run_worker. destruct (existe (get_worker_path n)); simpl.
    + rewrite IH, <- app_assoc. reflexivity.
    + apply IH.
Qed.

Lemma percorre_nomes_vazio existe l :
  percorre_nomes existe l [] =
  map (fun n => (n, Popen (get_worker_path n)))
      (filter (fun n => existe (get_worker_path n)) l).
Proof. now rewrite percorre_nomes_filtra. Qed.

(** X24.  What [main] does with the command line: [--list] wins over
    everything; otherwise it hands to the monitor a list that is not empty
    and whose processes all run existing files, and it exits with status 1
    exactly when [--all] or some [--worker] was given and no file
    exists. *)
Theorem main_monitora_so_existentes :
  forall (existe : caminho -> bool) (args : argumentos),
    (list_ args = true -> main existe args = Listou)
    /\ (forall ps, main existe args = Monitora ps ->
          ps <> [] /\
          forall name p, In (name, p) ps ->
            exists path, p = Popen path /\ existe path = true)
    /\ (main existe args = Sai1 <->
        list_ args = false /\
        ((all args = true /\
          forall name f, In (name, f) WORKERS -> existe (EmWorkers f) = false)
         \/ (all args = false /\
             exists w ws, workers args = Some (w :: ws) /\
               forall n, In n (w :: ws) -> existe (get_worker_path n) = false))).
Proof.
  intros existe [a ws l]. unfold main. cbn [all workers list_].
  assert (Hall : forall name p, In (name, p) (run_all_workers existe) ->
                   exists path, p = Popen path /\ existe path = true).
  { intros name p Hin. rewrite run_all_filtra in Hin.
    apply in_map_iff in Hin. destruct Hin as ([n f] & Heq & Hin).
    apply filter_In in Hin. destruct Hin as (_ & Hex).
    inversion Heq; subst. eauto. }
  assert (Hnomes : forall names name p, In (name, p) (percorre_nomes existe names []) ->
                   exists path, p = Popen path /\ existe path = true).
  { intros names name p Hin. rewrite percorre_nomes_vazio in Hin.
    apply in_map_iff in Hin. destruct Hin as (n & Heq & Hin).
    apply filter_In in Hin. inversion Heq; subst. destruct Hin. eauto. }
  assert (Hvazio_all : run_all_workers existe = [] <->
                       forall name f, In (name, f) WORKERS -> existe (EmWorkers f) = false).
  { rewrite run_all_filtra.
    generalize WORKERS. intros t. induction t as [|[n f] r IH]; simpl.
    - split; [intros _ ? ? []|reflexivity].
    - destruct (existe (EmWorkers f)) eqn:Hex; simpl.
      + split; [discriminate|]. intros H. rewrite (H n f) in Hex; [discriminate|now left].
      + rewrite IH. split.
        * intros H name f' [Heq|Hin]; [inversion Heq; subst; assumption|eauto].
        * intros H name f' Hin. apply (H name f'). now right. }
  assert (Hvazio_nomes : forall names, percorre_nomes existe names [] = [] <->
                       forall n, In n names -> existe (get_worker_path n) = false).
  { intros names. rewrite percorre_nomes_vazio.
    induction names as [|n r IH]; simpl.
    - split; [intros _ ? []|reflexivity].
    - destruct (existe (get_worker_path n)) eqn:Hex; simpl.
      + split; [discriminate|]. intros H. rewrite (H n) in Hex; [discriminate|now left].
      + rewrite IH. split.
        * intros H n' [<-|Hin]; [assumption|eauto].
        * intros H n' Hin. apply H. now right. }
  split; [intros ->; reflexivity|].
  destruct l; cbv beta iota zeta.
  { split; [discriminate|]. split; [discriminate|]. intros (Hf & _). discriminate. }
  destruct a; cbv beta iota zeta.
  - destruct (run_all_workers existe) as [|x r] eqn:Hr.
    + split; [discriminate|]. split; [intros _|reflexivity].
      split; [reflexivity|]. left. split; [reflexivity|]. now apply Hvazio_all.
    + split.
      * intros ps Hps. inversion Hps; subst. split; [discriminate|]. apply Hall.
      * split; [discriminate|]. intros (_ & [(_ & H)|(H & _)]); [|discriminate].
        apply Hvazio_all in H. discriminate.
  - destruct ws as [[|w ws']|]; cbv beta iota zeta.
    + split; [discriminate|]. split; [discriminate|].
      intros (_ & [(H & _)|(_ & w & ws' & H & _)]); discriminate.
    + destruct (percorre_nomes existe (w :: ws') []) as [|x r] eqn:Hr.
      * split; [discriminate|]. split; [intros _|reflexivity].
        split; [reflexivity|]. right. split; [reflexivity|].
        exists w, ws'. split; [reflexivity|]. now apply Hvazio_nomes.
      * split.
        -- intros ps Hps. inversion Hps; subst. split; [discriminate|].
           rewrite <- Hr. apply Hnomes.
        -- split; [discriminate|].
           intros (_ & [(H & _)|(_ & w0 & ws0 & Heq & H)]); [discriminate|].
           inversion Heq; subst. apply Hvazio_nomes in H. rewrite H in Hr. discriminate.
    + split; [discriminate|]. split; [discriminate|].
      intros (_ & [(H & _)|(_ & w & ws' & H & _)]); discriminate.
Qed.

(** X25.  A worker is reached by its short name and by its file name alike:
    for every entry of the table both resolve to the file of the entry. *)
Theorem get_worker_path_nome_e_arquivo :
  forall (name f : string),
    In (name, f) WORKERS ->
    get_worker_path name = EmWorkers f /\ get_worker_path f = EmWorkers f.
Proof.
  intros name f Hin. unfold WORKERS in Hin. simpl in Hin.
  repeat (destruct Hin as [Hin|Hin]; [inversion Hin; subst; split; reflexivity|]).
  contradiction.
Qed.

Lemma get_worker_path_nome_e_arquivo_witness :
  In ("ibm-rpa", "worker_ibm_rpa_autorizacao.py") WORKERS
  /\ get_worker_path "ibm-rpa" = EmWorkers "worker_ibm_rpa_autorizacao.py"
  /\ get_worker_path "worker_ibm_rpa_autorizacao.py" =
     EmWorkers "worker_ibm_rpa_autorizacao.py".
Proof.
  assert (H : In ("ibm-rpa", "worker_ibm_rpa_autorizacao.py") WORKERS)
    by (unfold WORKERS; simpl; tauto).
  split; [exact H|].
  exact (get_worker_path_nome_e_arquivo "ibm-rpa" "worker_ibm_rpa_autorizacao.py" H).
Defined.
